(** * EditaCTF: the scoring engine and the flag-submission handler

    A shallow embedding of [AdvancedScoringSystem] (the admin scoring
    route) and of the tail of [POST /api/flag], with the properties the
    specification states about them.

    Numbers.  JavaScript numbers are IEEE-754 doubles.  Every quantity the
    engine handles is either an integer far below 2^53 or one of a few
    decimal constants, so numbers are modelled by exact rationals ([Q])
    extended with [NaN]; rounding error of the binary representation is
    not modelled.  [Math.round] is [floor (x + 1/2)]. *)

From Stdlib Require Import ZArith QArith Qround Lia Lqa List String Bool.
Import ListNotations.

Local Open Scope Z_scope.

(** ** JavaScript values used by the engine *)

Module JS.

(** A number: [NaN] or a finite value. *)
Inductive num : Type :=
| NaN
| Fin (q : Q).

Definition of_Z (z : Z) : num := Fin (inject_Z z).

Definition lift2 (f : Q -> Q -> Q) (a b : num) : num :=
  match a, b with
  | Fin x, Fin y => Fin (f x y)
  | _, _ => NaN
  end.

Definition mul : num -> num -> num := lift2 Qmult.
Definition add : num -> num -> num := lift2 Qplus.

(** [Math.round]: the nearest integer, ties towards +Infinity. *)
Definition round_Q (q : Q) : Z := Qfloor (q + (1 # 2)).

Definition round (a : num) : num :=
  match a with
  | NaN => NaN
  | Fin q => of_Z (round_Q q)
  end.

(** [Math.max] of two numbers: [NaN] as soon as one argument is. *)
Definition max_Q (x y : Q) : Q := if Qle_bool x y then y else x.

Definition max (a b : num) : num :=
  match a, b with
  | Fin x, Fin y => Fin (max_Q x y)
  | _, _ => NaN
  end.

(** [x < y] on finite values. *)
Definition lt_Q (x y : Q) : bool := negb (Qle_bool y x).

(** [a <= b] and [a >= b]; any comparison with [NaN] is false. *)
Definition le (a b : num) : bool :=
  match a, b with
  | Fin x, Fin y => Qle_bool x y
  | _, _ => false
  end.

Definition ge (a b : num) : bool := le b a.

(** [x || d] for a nullable integer column: [null] and [0] are falsy. *)
Definition or_Z (x : option Z) (d : Z) : Z :=
  match x with
  | Some v => if v =? 0 then d else v
  | None => d
  end.

(** [x || d] for a nullable text column: [null] and [""] are falsy. *)
Definition or_string (x : option string) (d : string) : string :=
  match x with
  | Some EmptyString => d
  | Some s => s
  | None => d
  end.

(** The property names every object literal inherits from
    [Object.prototype]. *)
Definition object_prototype_keys : list string :=
  [ "constructor"; "__proto__"; "hasOwnProperty"; "isPrototypeOf";
    "propertyIsEnumerable"; "toLocaleString"; "toString"; "valueOf";
    "__defineGetter__"; "__defineSetter__"; "__lookupGetter__";
    "__lookupSetter__" ]%string.

Definition inherited (k : string) : bool :=
  existsb (String.eqb k) object_prototype_keys.

(** The result of [obj[k]] on an object literal [obj]: an own property,
    a member of [Object.prototype] (a function or an object, never a
    number), or [undefined]. *)
Inductive property (A : Type) : Type :=
| Own (a : A)
| Inherited
| Undefined.
Arguments Own {A} a.
Arguments Inherited {A}.
Arguments Undefined {A}.

Fixpoint own {A : Type} (obj : list (string * A)) (k : string) : option A :=
  match obj with
  | [] => None
  | (k', a) :: rest => if String.eqb k k' then Some a else own rest k
  end.

Definition get {A : Type} (obj : list (string * A)) (k : string) : property A :=
  match own obj k with
  | Some a => Own a
  | None => if inherited k then Inherited else Undefined
  end.

(** The key [obj[x]] uses for a nullable text column: [null] is
    converted to the string ["null"]. *)
Definition key_of (x : option string) : string :=
  match x with
  | Some s => s
  | None => "null"
  end.

(** [obj[k] || d] used as a factor of a product.  An own entry that is
    [0] is falsy; an inherited member is truthy and converts to [NaN]
    under [*]. *)
Definition factor_or (p : property Q) (d : Q) : num :=
  match p with
  | Own q => Fin (if Qeq_bool q 0 then d else q)
  | Inherited => NaN
  | Undefined => Fin d
  end.

End JS.

(** A date-time string, represented by what [new Date(s).getTime()] gives
    for it: the epoch milliseconds, or [None] for [NaN] when the string
    does not parse. *)
Definition DateString : Type := option Z.

(** ** The hosted database and its client *)

Module Supabase.

Record Challenge : Type := mkChallenge {
  id : string;
  points : option Z;
  difficulty : option string;
  category : option string;
  daily : option bool;
  created_at : option Z
}.

Record Team : Type := mkTeam { name : string }.

Record Solve : Type := mkSolve {
  user_id : string;
  team_name : string;
  challenge_id : string;
  solve_points : Z;
  solve_created_at : Z
}.

Record Settings : Type := mkSettings {
  dynamic_scoring : option bool;
  first_blood_bonus : option Z;
  settings_created_at : Z
}.

Record Profile : Type := mkProfile {
  profile_user_id : string;
  display_name : option string;
  profile_team_name : option string
}.

Record Flag : Type := mkFlag { flag_challenge_id : string; flag : string }.

(** A row of [user_activity_logs] as the flag route writes it: the user,
    the action type and the three members of [details]. *)
Record ActivityLog : Type := mkActivityLog {
  log_user_id : string;
  action_type : string;
  details_challenge_id : string;
  details_ip_address : string;
  details_timestamp : Z
}.

(** The tables the two routes touch.  The declaration of [solves] is
    not part of the sources: its uniqueness constraint is the field
    [solves_unique], which tells whether a stored row forbids a new
    one; [clock] is the value [now()] gives to [created_at] and
    [new Date()] to a log entry. *)
Record Database : Type := mkDatabase {
  challenges : list Challenge;
  teams : list Team;
  solves : list Solve;
  competition_settings : list Settings;
  profiles : list Profile;
  challenge_flags : list Flag;
  solves_unique : Solve -> Solve -> bool;
  clock : Z;
  user_activity_logs : list ActivityLog
}.

(** What happens to a request: it is answered, it fails (the client
    resolves to [{ data: null, count: null, error }]), or the call
    rejects and the [await] throws. *)
Inductive Fault : Type := Answers | Fails | Throws.

(** The client handle: the database behind it and the fate of the
    requests still to come (all answered once the list is used up). *)
Record Client : Type := mkClient {
  database : Database;
  faults : list Fault
}.

Inductive Outcome (A : Type) : Type :=
| Returned (a : A)
| Thrown.
Arguments Returned {A} a.
Arguments Thrown {A}.

(** An [async] computation over the client. *)
Definition Async (A : Type) : Type := Client -> Outcome A * Client.

Definition ret {A : Type} (a : A) : Async A := fun c => (Returned a, c).

Definition bind {A B : Type} (m : Async A) (k : A -> Async B) : Async B :=
  fun c =>
    match m c with
    | (Returned a, c') => k a c'
    | (Thrown, c') => (Thrown, c')
    end.

(** [try { body } catch (error) { handler }]. *)
Definition try_catch {A : Type} (body handler : Async A) : Async A :=
  fun c =>
    match body c with
    | (Returned a, c') => (Returned a, c')
    | (Thrown, c') => handler c'
    end.

Definition next_fault (c : Client) : Fault * Client :=
  (hd Answers (faults c), mkClient (database c) (tl (faults c))).

(** A read request: [run] computes [data] (or [count]) from the tables. *)
Definition select {A : Type} (run : Database -> option A) : Async (option A) :=
  fun c =>
    match next_fault c with
    | (Answers, c') => (Returned (run (database c')), c')
    | (Fails, c') => (Returned None, c')
    | (Throws, c') => (Thrown, c')
    end.

(** A write request: [run] gives the new tables, or [None] when the
    database rejects the statement; the caller does not look at the
    result. *)
Definition mutate (run : Database -> option Database) : Async unit :=
  fun c =>
    match next_fault c with
    | (Answers, c') =>
        match run (database c') with
        | Some d => (Returned tt, mkClient d (faults c'))
        | None => (Returned tt, c')
        end
    | (Fails, c') => (Returned tt, c')
    | (Throws, c') => (Thrown, c')
    end.

(** [.single()]: the row when exactly one matches. *)
Definition single {A : Type} (rows : list A) : option A :=
  match rows with
  | [r] => Some r
  | _ => None
  end.

(** [.order(key, { ascending: true }).limit(1)]: a row of least key. *)
Fixpoint least {A : Type} (key : A -> Z) (rows : list A) : list A :=
  match rows with
  | [] => []
  | r :: rest =>
      match least key rest with
      | [] => [r]
      | m :: _ => if key r <=? key m then [r] else [m]
      end
  end.

Definition greatest {A : Type} (key : A -> Z) (rows : list A) : list A :=
  least (fun r => - key r) rows.

Definition count {A : Type} (rows : list A) : Z := Z.of_nat (List.length rows).

(** [from('challenges').select(...).eq('id', challengeId).single()] *)
Definition find_challenge (d : Database) (challengeId : string) : option Challenge :=
  single (filter (fun ch => String.eqb (id ch) challengeId) (challenges d)).

Definition challenge_by_id (challengeId : string) : Async (option Challenge) :=
  select (fun d => find_challenge d challengeId).

(** [from('teams').select('*', { count: 'exact', head: true }).neq('name', 'guest')] *)
Definition eligible_teams (d : Database) : Z :=
  count (filter (fun t => negb (String.eqb (name t) "guest")) (teams d)).

Definition count_teams : Async (option Z) :=
  select (fun d => Some (eligible_teams d)).

Definition solves_of (challengeId : string) (d : Database) : list Solve :=
  filter (fun s => String.eqb (challenge_id s) challengeId) (solves d).

(** [from('solves').select('*', { count: 'exact', head: true }).eq('challenge_id', challengeId)] *)
Definition solve_count (d : Database) (challengeId : string) : Z :=
  count (solves_of challengeId d).

Definition count_solves (challengeId : string) : Async (option Z) :=
  select (fun d => Some (solve_count d challengeId)).

(** [from('solves')...eq('challenge_id', challengeId).order('created_at', { ascending: true }).limit(1).single()] *)
Definition earliest_solve (d : Database) (challengeId : string) : option Solve :=
  single (least solve_created_at (solves_of challengeId d)).

Definition first_solve (challengeId : string) : Async (option Solve) :=
  select (fun d => earliest_solve d challengeId).

(** [from('competition_settings').select('first_blood_bonus').order('created_at', { ascending: false }).limit(1).single()] *)
Definition current_settings (d : Database) : option Settings :=
  single (greatest settings_created_at (competition_settings d)).

Definition latest_settings : Async (option Settings) :=
  select (fun d => current_settings d).

End Supabase.

Declare Scope async_scope.
Delimit Scope async_scope with async.
Notation "x <- m ;; k" := (Supabase.bind m (fun x => k))
  (at level 61, m at next level, right associativity) : async_scope.

(** ** The scoring engine *)

Module AdvancedScoringSystem.

Import JS Supabase.
Local Open Scope async_scope.

(** [calculateTeamSizeModifier(teamSize, maxTeamSize = 4)].  With
    [maxTeamSize = 0] and [teamSize > 1] the ratio is [+Infinity] and
    [Math.max] returns [0.7]. *)
Definition calculateTeamSizeModifier (teamSize maxTeamSize : Z) : Q :=
  if teamSize <=? 1 then 1%Q
  else if maxTeamSize =? 0 then (7 # 10)%Q
  else
    let sizeRatio := (inject_Z teamSize / inject_Z maxTeamSize)%Q in
    max_Q (7 # 10) (1 - (sizeRatio - 1) * (3 # 10))%Q.

Definition defaultMaxTeamSize : Z := 4.

Record Thresholds : Type := mkThresholds { fast : Z; medium : Z; slow : Z }.

Definition speedThresholds : list (string * Thresholds) :=
  [ ("easy",   mkThresholds 1 6 24);
    ("medium", mkThresholds 2 12 48);
    ("hard",   mkThresholds 4 24 72);
    ("expert", mkThresholds 8 48 120) ]%string.

Definition speedThresholds_medium : Thresholds := mkThresholds 2 12 48.

(** [(solveMs - releaseMs) / (1000 * 60 * 60)], [NaN] when a date is
    invalid. *)
Definition timeDiffHours (challengeReleaseTime solveTime : DateString) : num :=
  match challengeReleaseTime, solveTime with
  | Some releaseMs, Some solveMs =>
      Fin (inject_Z (solveMs - releaseMs) / inject_Z (1000 * 60 * 60))%Q
  | _, _ => NaN
  end.

(** [calculateSpeedBonus].  Nothing in the body throws, so the [catch]
    branch is never taken.  For an inherited key the looked-up value is
    truthy but has no [fast] or [medium] member: both comparisons are
    against [undefined] and are false. *)
Definition calculateSpeedBonus
    (challengeReleaseTime solveTime : DateString)
    (challengeDifficulty : string) : Z :=
  let diff := timeDiffHours challengeReleaseTime solveTime in
  match get speedThresholds challengeDifficulty with
  | Inherited => 0
  | p =>
      let thresholds :=
        match p with Own t => t | _ => speedThresholds_medium end in
      if le diff (of_Z (fast thresholds)) then 25
      else if le diff (of_Z (medium thresholds)) then 10
      else 0
  end.

(** The rarity multiplier of a solve rate. *)
Definition rarityMultiplier (solveRate : Q) : Q :=
  if Qeq_bool solveRate 0 then 2
  else if lt_Q solveRate (1 # 10) then 18 # 10
  else if lt_Q solveRate (25 # 100) then 15 # 10
  else if lt_Q solveRate (5 # 10) then 12 # 10
  else if lt_Q solveRate (8 # 10) then 1
  else 7 # 10.

Definition difficultyMultiplier : list (string * Q) :=
  [ ("easy", 1); ("medium", 13 # 10); ("hard", 16 # 10); ("expert", 2) ]%string%Q.

Definition categoryMultiplier : list (string * Q) :=
  [ ("crypto", 12 # 10); ("pwn", 13 # 10); ("reverse", 12 # 10);
    ("web", 1); ("forensics", 11 # 10); ("misc", 1) ]%string%Q.

Definition dailyMultiplier (daily : option bool) : Q :=
  match daily with
  | Some true => 15 # 10
  | _ => 1
  end.

(** The part of [calculateDynamicPoints] after the three reads, from
    [const basePoints = challenge.points || 100] to the final
    [Math.max], given the row and the two counts ([None] for a [null]
    count). *)
Definition dynamicPointsOf
    (challenge : Challenge) (totalTeams solveCount : option Z) : num :=
  let basePoints := or_Z (points challenge) 100 in
  match totalTeams with
  | None | Some 0 => of_Z basePoints
  | Some totalTeams =>
      let solveRate := (inject_Z (or_Z solveCount 0) / inject_Z totalTeams)%Q in
      let multiplier := rarityMultiplier solveRate in
      let diffMult :=
        factor_or (get difficultyMultiplier (key_of (difficulty challenge))) 1 in
      let catMult :=
        factor_or (get categoryMultiplier (key_of (category challenge))) 1 in
      let finalPoints :=
        round (mul (mul (mul (mul (of_Z basePoints) (Fin multiplier)) diffMult)
                        catMult)
                   (Fin (dailyMultiplier (daily challenge)))) in
      max finalPoints (round (mul (of_Z basePoints) (Fin (3 # 10))))
  end.

Definition calculateDynamicPoints (challengeId : string) : Async num :=
  try_catch
    (challenge <- challenge_by_id challengeId ;;
     match challenge with
     | None => ret (of_Z 0)
     | Some challenge =>
         totalTeams <- count_teams ;;
         solveCount <- count_solves challengeId ;;
         ret (dynamicPointsOf challenge totalTeams solveCount)
     end)
    (ret (of_Z 100)).

Record FirstBlood : Type := mkFirstBlood { fb_points : Z; fb_isFirstBlood : bool }.

Definition calculateFirstBloodBonus (challengeId teamId : string) : Async FirstBlood :=
  try_catch
    (firstSolve <- first_solve challengeId ;;
     match firstSolve with
     | None =>
         settings <- latest_settings ;;
         let bonus :=
           or_Z (match settings with
                 | Some s => first_blood_bonus s
                 | None => None
                 end) 50 in
         ret (mkFirstBlood bonus true)
     | Some _ => ret (mkFirstBlood 0 false)
     end)
    (ret (mkFirstBlood 0 false)).

(** The [breakdown] member of the result; the fallback result carries
    the empty object. *)
Record Audit : Type := mkAudit {
  audit_challenge : string;
  audit_category : string;
  audit_daily : bool;
  audit_solveTime : DateString;
  audit_teamSize : Z
}.

Record ScoreBreakdown : Type := mkScoreBreakdown {
  basePoints : num;
  dynamicPoints : num;
  firstBloodBonus : num;
  speedBonus : num;
  teamSizeModifier : num;
  totalPoints : num;
  isFirstBlood : bool;
  breakdown : option Audit
}.

Definition field {A : Type} (challenge : option Challenge)
    (f : Challenge -> option A) : option A :=
  match challenge with
  | Some ch => f ch
  | None => None
  end.

Definition calculateTotalScore
    (challengeId teamId : string) (teamSize : Z) (solveTime : DateString)
  : Async ScoreBreakdown :=
  try_catch
    (challenge <- challenge_by_id challengeId ;;
     let basePoints := or_Z (field challenge points) 100 in
     dynamicPoints <- calculateDynamicPoints challengeId ;;
     firstBlood <- calculateFirstBloodBonus challengeId teamId ;;
     let speedBonus :=
       calculateSpeedBonus
         (match field challenge created_at with
          | Some ms => Some ms
          | None => solveTime
          end)
         solveTime
         (or_string (field challenge difficulty) "medium") in
     let teamSizeModifier :=
       calculateTeamSizeModifier teamSize defaultMaxTeamSize in
     let adjustedPoints := round (mul dynamicPoints (Fin teamSizeModifier)) in
     let totalPoints :=
       add (add adjustedPoints (of_Z (fb_points firstBlood))) (of_Z speedBonus) in
     ret {| basePoints := of_Z basePoints;
            dynamicPoints := dynamicPoints;
            firstBloodBonus := of_Z (fb_points firstBlood);
            speedBonus := of_Z speedBonus;
            teamSizeModifier := Fin teamSizeModifier;
            totalPoints := totalPoints;
            isFirstBlood := fb_isFirstBlood firstBlood;
            breakdown :=
              Some {| audit_challenge := or_string (field challenge difficulty) "unknown";
                      audit_category := or_string (field challenge category) "unknown";
                      audit_daily :=
                        match field challenge daily with
                        | Some b => b
                        | None => false
                        end;
                      audit_solveTime := solveTime;
                      audit_teamSize := teamSize |} |})
    (ret {| basePoints := of_Z 100;
            dynamicPoints := of_Z 100;
            firstBloodBonus := of_Z 0;
            speedBonus := of_Z 0;
            teamSizeModifier := Fin 1;
            totalPoints := of_Z 100;
            isFirstBlood := false;
            breakdown := None |}).

End AdvancedScoringSystem.

(** ** The dynamic points as the specification words them *)

Module Spec.

Import JS Supabase.

(** The ordered threshold rows below the row for an unsolved challenge:
    the first row whose bound exceeds the solve rate gives the
    multiplier. *)
Definition rarity_rows : list (Q * Q) :=
  [ (1 # 10, 18 # 10); (25 # 100, 15 # 10); (5 # 10, 12 # 10); (8 # 10, 1) ]%Q.

Fixpoint first_match (rows : list (Q * Q)) (solveRate otherwise : Q) : Q :=
  match rows with
  | [] => otherwise
  | (bound, multiplier) :: rest =>
      if lt_Q solveRate bound then multiplier
      else first_match rest solveRate otherwise
  end.

Definition rarityMultiplier (solveCount eligibleTeamCount : Z) : Q :=
  let solveRate := (inject_Z solveCount / inject_Z eligibleTeamCount)%Q in
  if Qeq_bool solveRate 0 then 2%Q
  else first_match rarity_rows solveRate (7 # 10)%Q.

(** A multiplier table looked up by a key, [1.0] for an unknown key. *)
Definition lookup (table : list (string * Q)) (key : option string) : Q :=
  match key with
  | Some k => match own table k with Some m => m | None => 1%Q end
  | None => 1%Q
  end.

Definition dailyMultiplier (daily : bool) : Q :=
  if daily then (15 # 10)%Q else 1%Q.

(** [round(basePoints x rarity x difficulty x category x daily)], floored
    at [round(basePoints x 0.3)]. *)
Definition computeDynamicPoints
    (difficultyTable categoryTable : list (string * Q))
    (basePoints : Z) (difficulty category : option string) (daily : bool)
    (solveCount eligibleTeamCount : Z) : Z :=
  Z.max
    (round_Q (inject_Z basePoints
              * rarityMultiplier solveCount eligibleTeamCount
              * lookup difficultyTable difficulty
              * lookup categoryTable category
              * dailyMultiplier daily)%Q)
    (round_Q (inject_Z basePoints * (3 # 10))%Q).

(** The fields of a challenge are valid when its points are a positive
    integer and neither its difficulty nor its category is the name of a
    member of [Object.prototype]. *)
Definition valid_fields (ch : Challenge) : bool :=
  match points ch with Some p => 0 <? p | None => false end
  && negb (inherited (key_of (difficulty ch)))
  && negb (inherited (key_of (category ch))).

Definition base_of (ch : Challenge) : Z :=
  match points ch with Some p => p | None => 0 end.

Definition is_daily (ch : Challenge) : bool :=
  match daily ch with Some b => b | None => false end.

End Spec.

(** ** The flag-submission route, [POST /api/flag] *)

Module FlagRoute.

Import JS Supabase.
Local Open Scope async_scope.
Local Open Scope string_scope.

(** What [supabase.auth.getUser()] makes of the [authorization] header. *)
Inductive Session : Type :=
| NoToken
| InvalidSession
| User (user_id : string).

(** The request once its headers and JSON body are read: the address
    [ip], the verdict of the rate limiter for it, the trimmed [id] and
    [flag], whether [flag] matches the format expression, and the
    session. *)
Record Request : Type := mkRequest {
  ip : string;
  rate_allowed : bool;
  body_id : string;
  body_flag : string;
  format_ok : bool;
  session : Session
}.

Inductive Response : Type :=
| TooManyRequests
| Text (status : Z) (body : string)
| Incorrect (message : string)
| Correct (points awarded : Z) (message : string).

(** [.maybeSingle()] *)
Definition profile_of (user : string) : Async (option Profile) :=
  select (fun d =>
    single (filter (fun p => String.eqb (profile_user_id p) user) (profiles d))).

Definition secret_of (challengeId : string) : Async (option Flag) :=
  select (fun d =>
    single (filter (fun f => String.eqb (flag_challenge_id f) challengeId)
                   (challenge_flags d))).


Definition with_profiles (d : Database) (ps : list Profile) : Database :=
  mkDatabase (challenges d) (teams d) (solves d) (competition_settings d)
             ps (challenge_flags d) (solves_unique d) (clock d)
             (user_activity_logs d).

Definition with_logs (d : Database) (logs : list ActivityLog) : Database :=
  mkDatabase (challenges d) (teams d) (solves d) (competition_settings d)
             (profiles d) (challenge_flags d) (solves_unique d) (clock d)
             logs.

(** [from('user_activity_logs').insert({ user_id, action_type:
    'flag_attempt_failed', details: { challenge_id, ip_address,
    timestamp } })] *)
Definition log_failed_attempt (user challengeId ip : string) : Async unit :=
  mutate (fun d =>
    Some (with_logs d
            (user_activity_logs d
             ++ [mkActivityLog user "flag_attempt_failed" challengeId ip (clock d)]))).

Definition with_solves (d : Database) (ss : list Solve) : Database :=
  mkDatabase (challenges d) (teams d) ss (competition_settings d)
             (profiles d) (challenge_flags d) (solves_unique d) (clock d)
             (user_activity_logs d).

(** [from("profiles").upsert(row, { onConflict: "user_id" })] *)
Definition upsert_profile (row : Profile) : Async unit :=
  mutate (fun d =>
    let others :=
      filter (fun p => negb (String.eqb (profile_user_id p) (profile_user_id row)))
             (profiles d) in
    Some (with_profiles d (others ++ [row]))).

(** [from("solves").select("id").eq("team_name", teamName).eq("challenge_id", id).limit(1)] *)
Definition team_solves (teamName challengeId : string) (d : Database) : list Solve :=
  filter (fun s => String.eqb (team_name s) teamName
                   && String.eqb (challenge_id s) challengeId) (solves d).

Definition existing_team_solve (teamName challengeId : string) : Async (option (list Solve)) :=
  select (fun d => Some (firstn 1 (team_solves teamName challengeId d))).

(** [from("solves").insert(row, ...)]: the two options are not options
    of [insert], so this is a plain insert, rejected when a stored row
    conflicts with the new one under the table's uniqueness constraint. *)
Definition insert_solve (user teamName challengeId : string) (points : Z) : Async unit :=
  mutate (fun d =>
    let row := mkSolve user teamName challengeId points (clock d) in
    if existsb (fun r => solves_unique d r row) (solves d) then None
    else Some (with_solves d (solves d ++ [row]))).

Definition truthy (s : option string) : bool :=
  match s with
  | Some EmptyString | None => false
  | Some _ => true
  end.

(** Lines 126 to 169: the flag is correct, [profile] has a display name. *)
Definition award (user : string) (profile : Profile) (id : string) : Async Response :=
  ch <- challenge_by_id id ;;
  let points :=
    match ch with
    | Some c => match Supabase.points c with Some p => p | None => 0 end
    | None => 0
    end in
  let teamName0 :=
    match profile_team_name profile with
    | Some t => t
    | None => "guest_" ++ user
    end in
  guest <- (if String.eqb teamName0 "guest"
            then upsert_profile
                   (mkProfile user (display_name profile) (Some ("guest_" ++ user)))
            else ret tt) ;;
  let teamName := if String.eqb teamName0 "guest" then "guest_" ++ user else teamName0 in
  existingTeamSolve <- existing_team_solve teamName id ;;
  let awarded :=
    match existingTeamSolve with
    | Some (_ :: _) => 0
    | _ => points
    end in
  inserted <- insert_solve user teamName id points ;;
  ret (Correct points awarded
         (if (0 <? awarded)%Z then "Correct! Points awarded to your team."
          else "Correct! You already solved this challenge.")).

Definition POST (req : Request) : Async Response :=
  try_catch
    (if negb (rate_allowed req) then ret TooManyRequests
     else if String.eqb (body_id req) "" || String.eqb (body_flag req) ""
     then ret (Text 400 "Missing id or flag")
     else if negb (format_ok req) then ret (Incorrect "Invalid flag format. Expected editaCTF{...} with valid characters and reasonable length.")
     else
       match session req with
       | NoToken => ret (Incorrect "Please register and login first to submit flags. Use 'auth register <email> <password>' then 'auth login <email> <password>'")
       | InvalidSession =>
           got <- select (fun _ => Some tt) ;;
           ret (Incorrect "Invalid session. Please login again with 'auth login <email> <password>'")
       | User user =>
           got <- select (fun _ => Some tt) ;;
           match got with
           | None => ret (Incorrect "Invalid session. Please login again with 'auth login <email> <password>'")
           | Some _ =>
               profile <- profile_of user ;;
               match profile with
               | Some profile =>
                   if truthy (display_name profile) then
                     secret <- secret_of (body_id req) ;;
                     match secret with
                     | None => ret (Text 400 "Unknown challenge id.")
                     | Some secret =>
                         if String.eqb (flag secret) (body_flag req)
                         then award user profile (body_id req)
                         else
                           logged <- try_catch
                                       (log_failed_attempt user (body_id req) (ip req))
                                       (ret tt) ;;
                           ret (Incorrect "Incorrect flag. Keep trying!")
                     end
                   else ret (Incorrect "Please set your display name first with 'profile name <your_name>' before submitting flags.")
               | None => ret (Incorrect "Please set your display name first with 'profile name <your_name>' before submitting flags.")
               end
           end
       end)
    (ret (Text 400 "Invalid request")).

End FlagRoute.

(** ** Notions used in the statements *)

Module Statement.

Import JS Supabase AdvancedScoringSystem.

(** The total of a breakdown recomputed from its recorded components. *)
Definition recomputed (r : ScoreBreakdown) : num :=
  add (add (round (mul (dynamicPoints r) (teamSizeModifier r)))
           (firstBloodBonus r))
      (speedBonus r).

(** The configured amount as [calculateFirstBloodBonus] reads it. *)
Definition configured_bonus (d : Database) : option Z :=
  match current_settings d with
  | Some s => first_blood_bonus s
  | None => None
  end.

(** The 30% floor of a base value, [round(basePoints x 0.3)]. *)
Definition floor30 (basePoints : num) : num :=
  round (mul basePoints (Fin (3 # 10))).

(** The fate of the [n]-th request to come. *)
Definition fate (n : nat) (fs : list Fault) : Fault := nth n fs Answers.

Definition with_settings (d : Database) (ss : list Settings) : Database :=
  mkDatabase (challenges d) (teams d) (solves d) ss
             (profiles d) (challenge_flags d) (solves_unique d) (clock d)
             (user_activity_logs d).

(** Table-wide conditions on a multiplier table. *)
Definition entries_nonzero (table : list (string * Q)) : bool :=
  forallb (fun e => negb (Qeq_bool (snd e) 0)) table.

Definition entries_at_least_one (table : list (string * Q)) : bool :=
  forallb (fun e => Qle_bool 1 (snd e)) table.

(** What a count read hands to the computation. *)
Definition counted (f : Fault) (n : Z) : option Z :=
  match f with
  | Answers => Some n
  | _ => None
  end.

End Statement.

(** ** Accepted submissions *)

Module Submission.

Import JS Supabase FlagRoute.
Local Open Scope string_scope.

(** The request passes every check before line 126: it is within the
    rate limit, carries an id and a well-formed flag, comes from the
    signed-in [user] whose [profile] has a display name, and its flag is
    the one stored for the challenge. *)
Definition accepted (d : Database) (req : Request) (user : string)
    (profile : Profile) : Prop :=
  rate_allowed req = true
  /\ String.eqb (body_id req) "" = false
  /\ String.eqb (body_flag req) "" = false
  /\ format_ok req = true
  /\ session req = User user
  /\ single (filter (fun p => String.eqb (profile_user_id p) user) (profiles d))
     = Some profile
  /\ truthy (display_name profile) = true
  /\ exists secret,
       single (filter (fun f => String.eqb (flag_challenge_id f) (body_id req))
                 (challenge_flags d)) = Some secret
       /\ String.eqb (flag secret) (body_flag req) = true.

(** The team the solve is recorded for. *)
Definition team_of (user : string) (profile : Profile) : string :=
  let teamName :=
    match profile_team_name profile with
    | Some t => t
    | None => "guest_" ++ user
    end in
  if String.eqb teamName "guest" then "guest_" ++ user else teamName.

(** [Number(ch?.points ?? 0)] *)
Definition stored_points (d : Database) (challengeId : string) : Z :=
  match find_challenge d challengeId with
  | Some ch => match points ch with Some p => p | None => 0%Z end
  | None => 0%Z
  end.

(** The row the route inserts. *)
Definition new_row (d : Database) (user : string) (profile : Profile)
    (challengeId : string) : Solve :=
  mkSolve user (team_of user profile) challengeId
          (stored_points d challengeId) (clock d).

Definition rejected (d : Database) (row : Solve) : bool :=
  existsb (fun r => solves_unique d r row) (solves d).

Definition message (awarded : Z) : string :=
  if (0 <? awarded)%Z then "Correct! Points awarded to your team."
  else "Correct! You already solved this challenge.".

(** Modelled from the spec: the declaration of the [solves] table and of
    its uniqueness constraint is not part of the sources.  The Solve
    Repository inserts a solve only if no record exists for that team
    and challenge. *)
Definition unique_per_team (d : Database) : Prop :=
  forall r new : Solve,
    team_name r = team_name new -> challenge_id r = challenge_id new ->
    solves_unique d r new = true.

End Submission.

(** ** Scenarios *)

Module Scenario.

Import JS Supabase AdvancedScoringSystem FlagRoute.
Local Open Scope string_scope.

(** The challenge of the specification's worked example. *)
Definition hard_crypto : Challenge :=
  mkChallenge "c1" (Some 100) (Some "hard") (Some "crypto") (Some false) (Some 0).

Definition by_user_and_challenge (r new : Solve) : bool :=
  String.eqb (user_id r) (user_id new)
  && String.eqb (challenge_id r) (challenge_id new).

Definition by_team_and_challenge (r new : Solve) : bool :=
  String.eqb (team_name r) (team_name new)
  && String.eqb (challenge_id r) (challenge_id new).

(** Two teams, one player each, and nothing solved yet. *)
Definition fresh : Database :=
  mkDatabase [hard_crypto] [mkTeam "red"; mkTeam "blue"; mkTeam "guest"] [] []
             [mkProfile "alice" (Some "Alice") (Some "red");
              mkProfile "bob" (Some "Bob") (Some "blue")]
             [mkFlag "c1" "editaCTF{x}"] by_team_and_challenge 1800000 [].

Definition submission (user : string) : Request :=
  mkRequest "10.0.0.7" true "c1" "editaCTF{x}" true (User user).

(** The same competition once team red has solved the challenge. *)
Definition solved_by_red : Database :=
  with_solves fresh [mkSolve "alice" "red" "c1" 100 1800000].

(** A competition whose first-blood bonus is configured as 0. *)
Definition no_bonus : Database :=
  Statement.with_settings fresh [mkSettings (Some true) (Some 0) 0].

(** A competition with dynamic scoring switched off. *)
Definition static_scoring : Database :=
  Statement.with_settings fresh [mkSettings (Some false) (Some 50) 0].

(** A challenge worth 1000 points that team blue solved long ago. *)
Definition big : Challenge :=
  mkChallenge "c2" (Some 1000) (Some "medium") (Some "web") (Some false) (Some 0).

Definition late : Database :=
  mkDatabase [big] [mkTeam "red"; mkTeam "blue"]
             [mkSolve "bob" "blue" "c2" 1000 1000] [] [] []
             by_team_and_challenge 360000000 [].

(** An easy challenge filed under a category of its own, "constructor",
    in a competition of one team. *)
Definition own_category : Challenge :=
  mkChallenge "c9" (Some 100) (Some "easy") (Some "constructor") (Some false) (Some 0).

Definition one_team : Database :=
  mkDatabase [own_category] [mkTeam "red"] [] [] [] []
             by_team_and_challenge 1800000 [].

End Scenario.

(** ** The rate limiter, [lib/rate-limiter.ts] *)

Module RateLimiter.

Import JS.
Local Open Scope string_scope.

(** A member that may be missing: [None] is [undefined], and [NaN] where
    a number was computed from one. *)
Record RateLimitEntry : Type := mkEntry {
  count : Z;
  resetTime : option Z;
  blocked : option bool;
  blockUntil : option Z
}.

(** The members of the value looked up in [RATE_LIMITS]. *)
Record RateLimitConfig : Type := mkConfig {
  windowMs : option Z;
  maxRequests : option Z;
  blockDurationMs : option Z
}.

Definition api_general : RateLimitConfig := mkConfig (Some 60000) (Some 100) None.

Definition RATE_LIMITS : list (string * RateLimitConfig) :=
  [ ("flag_submission", mkConfig (Some 60000) (Some 5) (Some 300000));
    ("auth_register", mkConfig (Some 300000) (Some 3) (Some 900000));
    ("auth_login", mkConfig (Some 300000) (Some 10) (Some 600000));
    ("team_operations", mkConfig (Some 60000) (Some 10) None);
    ("challenge_hint", mkConfig (Some 300000) (Some 20) None);
    ("admin_actions", mkConfig (Some 60000) (Some 30) None);
    ("api_general", api_general) ].

(** [RATE_LIMITS[endpointType] || RATE_LIMITS.api_general].  An inherited
    member is truthy and has none of the three members. *)
Definition config_of (endpointType : string) : RateLimitConfig :=
  match get RATE_LIMITS endpointType with
  | Own config => config
  | Inherited => mkConfig None None None
  | Undefined => api_general
  end.

(** [rateLimitMap], a [Map] from keys to entries. *)
Definition Store : Type := list (string * RateLimitEntry).

Fixpoint map_get (store : Store) (key : string) : option RateLimitEntry :=
  match store with
  | [] => None
  | (k, e) :: rest => if String.eqb key k then Some e else map_get rest key
  end.

Fixpoint map_set (store : Store) (key : string) (entry : RateLimitEntry) : Store :=
  match store with
  | [] => [(key, entry)]
  | (k, e) :: rest =>
      if String.eqb key k then (k, entry) :: rest
      else (k, e) :: map_set rest key entry
  end.

Definition key_for (identifier endpointType : string) : string :=
  endpointType ++ ":" ++ identifier.

(** Truthiness and comparisons of members that may be missing: a
    comparison with [undefined] or [NaN] is false. *)
Definition is_true (b : option bool) : bool :=
  match b with Some true => true | _ => false end.

Definition nonzero (x : option Z) : bool :=
  match x with Some v => negb (v =? 0)%Z | None => false end.

Definition before (now : Z) (t : option Z) : bool :=
  match t with Some t => (now <? t)%Z | None => false end.

Definition after (now : Z) (t : option Z) : bool :=
  match t with Some t => (t <? now)%Z | None => false end.

Definition reached (n : Z) (limit : option Z) : bool :=
  match limit with Some m => (m <=? n)%Z | None => false end.

Definition plus (now : Z) (x : option Z) : option Z :=
  match x with Some v => Some (now + v)%Z | None => None end.

Definition minus (x : option Z) (n : Z) : option Z :=
  match x with Some v => Some (v - n)%Z | None => None end.

(** [entry?.blocked && entry.blockUntil && now < entry.blockUntil] *)
Definition blocking (entry : RateLimitEntry) (now : Z) : bool :=
  is_true (blocked entry) && nonzero (blockUntil entry) && before now (blockUntil entry).

Record RateLimitResult : Type := mkResult {
  allowed : bool;
  remaining : option Z;
  result_resetTime : option Z;
  result_blocked : option bool
}.

(** [checkRateLimit(identifier, endpointType)] at [Date.now() = now]. *)
Definition checkRateLimit (identifier endpointType : string) (now : Z)
    (store : Store) : RateLimitResult * Store :=
  let config := config_of endpointType in
  let key := key_for identifier endpointType in
  let fresh :=
    let newEntry := mkEntry 1 (plus now (windowMs config)) (Some false) None in
    (mkResult true (minus (maxRequests config) 1) (resetTime newEntry) None,
     map_set store key newEntry) in
  match map_get store key with
  | None => fresh
  | Some entry =>
      if blocking entry now
      then (mkResult false (Some 0%Z) (blockUntil entry) (Some true), store)
      else if after now (resetTime entry) then fresh
      else if reached (count entry) (maxRequests config) then
        if nonzero (blockDurationMs config) then
          let entry' :=
            mkEntry (count entry) (resetTime entry) (Some true)
                    (plus now (blockDurationMs config)) in
          (mkResult false (Some 0%Z) (resetTime entry) (Some true),
           map_set store key entry')
        else (mkResult false (Some 0%Z) (resetTime entry) (blocked entry), store)
      else
        let entry' :=
          mkEntry (count entry + 1) (resetTime entry) (blocked entry)
                  (blockUntil entry) in
        (mkResult true
           (match maxRequests config with
            | Some m => Some (Z.max 0 (m - count entry'))
            | None => None
            end)
           (resetTime entry) None,
         map_set store key entry')
  end.

(** [getRemainingRequests(identifier, endpointType)] *)
Definition getRemainingRequests (identifier endpointType : string) (now : Z)
    (store : Store) : option Z :=
  let config := config_of endpointType in
  match map_get store (key_for identifier endpointType) with
  | None => maxRequests config
  | Some entry =>
      if after now (resetTime entry) then maxRequests config
      else match maxRequests config with
           | Some m => Some (Z.max 0 (m - count entry))
           | None => None
           end
  end.

(** [isBlocked(identifier, endpointType)] *)
Definition isBlocked (identifier endpointType : string) (now : Z)
    (store : Store) : bool :=
  match map_get store (key_for identifier endpointType) with
  | None => false
  | Some entry => blocking entry now
  end.

(** [cleanupRateLimitEntries()]: the entries the loop deletes are those
    whose window is over and which are not blocked, or whose block is
    over. *)
Definition stale (now : Z) (entry : RateLimitEntry) : bool :=
  after now (resetTime entry)
  && (negb (is_true (blocked entry))
      || (nonzero (blockUntil entry) && after now (blockUntil entry))).

Definition cleanupRateLimitEntries (now : Z) (store : Store) : Store :=
  filter (fun ke => negb (stale now (snd ke))) store.

(** The calls of one caller at the successive times [times]. *)
Fixpoint calls (identifier endpointType : string) (times : list Z)
    (store : Store) : list RateLimitResult * Store :=
  match times with
  | [] => ([], store)
  | now :: later =>
      let (result, store1) := checkRateLimit identifier endpointType now store in
      let (results, store2) := calls identifier endpointType later store1 in
      (result :: results, store2)
  end.

End RateLimiter.

(** ** Notions used in the statements about the rate limiter *)

Module Limits.

Import JS RateLimiter.

(** The caller has no running window and no running block: the next call
    opens a window. *)
Definition idle (identifier endpointType : string) (now : Z) (store : Store) : bool :=
  match map_get store (key_for identifier endpointType) with
  | None => true
  | Some entry => negb (blocking entry now) && after now (resetTime entry)
  end.

(** A [Map] holds one entry for a key. *)
Definition well_formed (store : Store) : Prop := NoDup (map fst store).

(** The verdicts of [n] successive calls of which the first [quota] are
    allowed. *)
Definition first_allowed (quota : Z) (n : nat) : list bool :=
  map (fun i => (Z.of_nat i <? quota)%Z) (seq 0 n).

(** A window opened at [opened] in which [i] calls were made so far: the
    entry counts them up to the quota, and is marked blocked only once
    the quota was exceeded. *)
Definition in_window (identifier endpointType : string)
    (opened window quota i : Z) (store : Store) : Prop :=
  exists entry,
    map_get store (key_for identifier endpointType) = Some entry
    /\ resetTime entry = Some (opened + window)%Z
    /\ count entry = Z.min i quota
    /\ (is_true (blocked entry) = true -> (quota <= i)%Z).

(** No colon occurs in the string. *)
Fixpoint colon_free (s : string) : bool :=
  match s with
  | EmptyString => true
  | String c rest => negb (String.eqb (String c EmptyString) ":") && colon_free rest
  end.

End Limits.

(** ** The flag route behind its rate limiter *)

Module FlagEndpoint.

Import JS Supabase FlagRoute RateLimiter.
Local Open Scope string_scope.

(** [s.split(',')[0]] *)
Fixpoint first_segment (s : string) : string :=
  match s with
  | EmptyString => EmptyString
  | String c rest =>
      if String.eqb (String c EmptyString) "," then EmptyString
      else String c (first_segment rest)
  end.

Definition nonempty (s : string) : bool :=
  match s with EmptyString => false | String _ _ => true end.

(** [req.headers.get('x-forwarded-for')?.split(',')[0] ||
    req.headers.get('x-real-ip') || 'unknown'] *)
Definition client_address (forwarded real : option string) : string :=
  let first := match forwarded with Some f => first_segment f | None => "" end in
  if nonempty first then first
  else match real with
       | Some r => if nonempty r then r else "unknown"
       | None => "unknown"
       end.

(** A request as it arrives: the two address headers, the time
    [checkRateLimit] reads from the clock, and the rest of the request
    (its [ip] member is what the headers give and its [rate_allowed]
    member what the limiter will decide). *)
Record Arrival : Type := mkArrival {
  x_forwarded_for : option string;
  x_real_ip : option string;
  arrived : Z;
  request : Request
}.

Definition address (a : Arrival) : string :=
  client_address (x_forwarded_for a) (x_real_ip a).

(** The route from its first line: the limiter is asked under the
    endpoint type ['flag_submission'], then the handler runs. *)
Definition receive (a : Arrival) (store : Store) (c : Client)
  : Outcome Response * Client * Store :=
  let (result, store') :=
    checkRateLimit (address a) "flag_submission" (arrived a) store in
  let req := request a in
  (POST (mkRequest (address a) (allowed result) (body_id req) (body_flag req)
                   (format_ok req) (session req)) c,
   store').

Fixpoint receive_all (arrivals : list Arrival) (store : Store) (c : Client)
  : list (Outcome Response) * Client * Store :=
  match arrivals with
  | [] => ([], c, store)
  | a :: later =>
      let '(response, c1, store1) := receive a store c in
      let '(responses, c2, store2) := receive_all later store1 c1 in
      (response :: responses, c2, store2)
  end.

Definition limited (response : Outcome Response) : bool :=
  match response with
  | Returned TooManyRequests => true
  | _ => false
  end.

End FlagEndpoint.

(** ** Notions used in the statements about the flag route *)

Module Handling.

Import JS Supabase FlagRoute.
Local Open Scope string_scope.

(** The request comes within the rate limit from the signed-in [user],
    whose [profile] has a display name, and names a challenge whose flag
    is [secret]; whether the submitted flag is that flag is left open. *)
Definition identified (d : Database) (req : Request) (user : string)
    (profile : Profile) (secret : Flag) : Prop :=
  rate_allowed req = true
  /\ String.eqb (body_id req) "" = false
  /\ String.eqb (body_flag req) "" = false
  /\ format_ok req = true
  /\ session req = User user
  /\ single (filter (fun p => String.eqb (profile_user_id p) user) (profiles d))
     = Some profile
  /\ truthy (display_name profile) = true
  /\ single (filter (fun f => String.eqb (flag_challenge_id f) (body_id req))
               (challenge_flags d)) = Some secret.

(** The tables the route never writes are the same in both states. *)
Definition untouched (d d' : Database) : Prop :=
  challenges d' = challenges d
  /\ teams d' = teams d
  /\ competition_settings d' = competition_settings d
  /\ challenge_flags d' = challenge_flags d
  /\ solves_unique d' = solves_unique d
  /\ clock d' = clock d.

(** A user still on the shared team of newcomers. *)
Definition newcomer : Database :=
  mkDatabase [Scenario.hard_crypto] [mkTeam "guest"] [] []
             [mkProfile "dave" (Some "Dave") (Some "guest")]
             [mkFlag "c1" "editaCTF{x}"] Scenario.by_team_and_challenge 1800000 [].

End Handling.

(** ** Notions used in the statements about the scoring engine *)

Module Bounds.

Import JS.

(** No inherited name is a key of the table. *)
Definition no_inherited_key {A : Type} (table : list (string * A)) : bool :=
  forallb (fun k => match own table k with Some _ => false | None => true end)
          object_prototype_keys.

End Bounds.

(** ** The permission check of the admin routes *)

Module AdminRoute.

Import JS Supabase.
Local Open Scope async_scope.
Local Open Scope string_scope.

(** The user [supabase.auth.getUser()] gives for a token. *)
Record AuthUser : Type := mkAuthUser {
  auth_id : string;
  email : option string
}.

(** A row of [user_roles]; several rows of one user differ in [role]. *)
Record UserRole : Type := mkUserRole {
  role_user_id : string;
  role : string;
  is_active : bool
}.

(** What the check consults beside the tables of the scoring engine:
    the environment variable, the sessions known to the auth service by
    token, and the table [user_roles]. *)
Record Directory : Type := mkDirectory {
  ADMIN_EMAILS : option string;
  sessions : list (string * AuthUser);
  user_roles : list UserRole
}.

(** [s.split(",")] *)
Fixpoint split_comma (s : string) : list string :=
  match s with
  | EmptyString => [EmptyString]
  | String c rest =>
      if String.eqb (String c EmptyString) "," then EmptyString :: split_comma rest
      else match split_comma rest with
           | [] => [String c EmptyString]
           | piece :: pieces => String c piece :: pieces
           end
  end.

(** [pieces.join(",")] *)
Fixpoint join_comma (pieces : list string) : string :=
  match pieces with
  | [] => EmptyString
  | [piece] => piece
  | piece :: rest => piece ++ "," ++ join_comma rest
  end.

(** [xs.includes(x)] *)
Definition includes (xs : list string) (x : string) : bool :=
  existsb (String.eqb x) xs.

(** [authHeader.startsWith("Bearer ") ? authHeader.slice(7) : undefined]
    with [authHeader = req.headers.get("authorization") || ""]. *)
Definition bearer_token (authorization : option string) : option string :=
  let authHeader := match authorization with Some h => h | None => "" end in
  if String.prefix "Bearer " authHeader
  then Some (String.substring 7 (String.length authHeader - 7) authHeader)
  else None.

(** [process.env.ADMIN_EMAILS?.split(",") || []] *)
Definition admin_emails (dir : Directory) : list string :=
  match ADMIN_EMAILS dir with
  | Some s => split_comma s
  | None => []
  end.

Definition active_roles (dir : Directory) (user : AuthUser) : list UserRole :=
  filter (fun r => String.eqb (role_user_id r) (auth_id user) && is_active r)
         (user_roles dir).

(** [from('user_roles').select(...).eq('user_id', user.id).eq('is_active', true).single()] *)
Definition role_of (dir : Directory) (user : AuthUser) : Async (option UserRole) :=
  select (fun _ => single (active_roles dir user)).

Definition getUser (dir : Directory) (token : string) : Async (option AuthUser) :=
  select (fun _ => own (sessions dir) token).

Inductive Permission : Type :=
| Denied (error : string) (status : Z)
| Granted (user : AuthUser) (granted_role : string).

(** Lines 33 to 46: the decision once the role read gave [userRole]. *)
Definition decision (dir : Directory) (requiredRole : list string)
    (user : AuthUser) (userRole : option UserRole) : Permission :=
  let isAuthorized :=
    match userRole with
    | Some r => includes requiredRole (role r)
    | None => includes (admin_emails dir) (or_string (email user) "")
    end in
  if negb isAuthorized then Denied "Insufficient permissions" 403
  else Granted user
         (match userRole with
          | Some r => or_string (Some (role r)) "admin"
          | None => "admin"
          end).

Definition checkAdminPermission (dir : Directory) (authorization : option string)
    (requiredRole : list string) : Async Permission :=
  match bearer_token authorization with
  | None | Some EmptyString => ret (Denied "Unauthorized" 401)
  | Some token =>
      try_catch
        (user <- getUser dir token ;;
         match user with
         | None => ret (Denied "Unauthorized" 401)
         | Some user =>
             userRole <- role_of dir user ;;
             ret (decision dir requiredRole user userRole)
         end)
        (ret (Denied "Internal server error" 500))
  end.

(** The two sets of roles the routes ask for. *)
Definition admins : list string := ["admin"; "super_admin"].
Definition super_admins : list string := ["super_admin"].

End AdminRoute.

(** ** The request middleware, [lib/middleware.ts] *)

Module Middleware.

Import JS RateLimiter.
Local Open Scope string_scope.

Definition RATE_LIMIT_MAPPING : list (string * string) :=
  [ ("/api/flag", "flag_submission");
    ("/api/admin/auth", "auth_register");
    ("/api/profile", "auth_login");
    ("/api/team/create", "team_operations");
    ("/api/team/join", "team_operations");
    ("/api/team/leave", "team_operations");
    ("/api/challenges", "challenge_hint");
    ("/api/admin/", "admin_actions") ].

(** The loop over [Object.entries(RATE_LIMIT_MAPPING)]: the type of the
    first entry whose path starts [pathname], else ['api_general']. *)
Fixpoint type_among (mapping : list (string * string)) (pathname : string) : string :=
  match mapping with
  | [] => "api_general"
  | (path, type) :: rest =>
      if String.prefix path pathname then type else type_among rest pathname
  end.

Definition rateLimitType (pathname : string) : string :=
  type_among RATE_LIMIT_MAPPING pathname.

(** What the middleware reads of a request; [cookie] tells whether the
    cookie [sb-access-token] is present. *)
Record Request : Type := mkRequest {
  method : string;
  pathname : string;
  x_forwarded_for : option string;
  x_real_ip : option string;
  authorization : option string;
  cookie : bool
}.

Definition ip (req : Request) : string :=
  FlagEndpoint.client_address (x_forwarded_for req) (x_real_ip req).

(** The response, by its status: the preflight answer, the refusals of
    the limiter and of the authentication check, or the request passed
    on with the headers made from [info]. *)
Inductive Response : Type :=
| Preflight
| TooManyRequests (result : RateLimitResult)
| AuthenticationRequired
| Next (info : RateLimitResult).

Definition status (r : Response) : Z :=
  match r with
  | Preflight => 200
  | TooManyRequests _ => 429
  | AuthenticationRequired => 401
  | Next _ => 200
  end.

(** [rateLimitMiddleware]: the refusal, or [None] for [NextResponse.next()]. *)
Definition rateLimitMiddleware (req : Request) (now : Z) (store : Store)
  : option Response * Store :=
  let (rateLimitResult, store') :=
    checkRateLimit (ip req) (rateLimitType (pathname req)) now store in
  if negb (allowed rateLimitResult)
  then (Some (TooManyRequests rateLimitResult), store')
  else (None, store').

(** [authToken || authCookie], with
    [authToken = authHeader?.startsWith('Bearer ') ? authHeader.slice(7) : null]. *)
Definition hasAuth (req : Request) : bool :=
  let authToken :=
    match authorization req with
    | Some authHeader =>
        if String.prefix "Bearer " authHeader
        then Some (String.substring 7 (String.length authHeader - 7) authHeader)
        else None
    | None => None
    end in
  FlagRoute.truthy authToken || cookie req.

Definition protectedRoutes : list string :=
  ["/api/flag"; "/api/team/"; "/api/profile"; "/api/me/"].

(** [authMiddleware]: the refusal, or [None] for [NextResponse.next()]. *)
Definition authMiddleware (req : Request) : option Response :=
  if (String.prefix "/api/admin/" (pathname req) || String.prefix "/admin" (pathname req))
     && negb (hasAuth req)
  then Some AuthenticationRequired
  else if existsb (fun route => String.prefix route (pathname req)) protectedRoutes
          && negb (hasAuth req)
  then Some AuthenticationRequired
  else None.

(** [middleware(request)]; [now1] and [now2] are what the clock gives to
    the two calls of [checkRateLimit]. *)
Definition middleware (req : Request) (now1 now2 : Z) (store : Store)
  : Response * Store :=
  if String.eqb (method req) "OPTIONS" && String.prefix "/api/" (pathname req)
  then (Preflight, store)
  else
    match rateLimitMiddleware req now1 store with
    | (Some refusal, store1) => (refusal, store1)
    | (None, store1) =>
        match authMiddleware req with
        | Some refusal => (refusal, store1)
        | None =>
            let (rateLimitInfo, store2) :=
              checkRateLimit (ip req) (rateLimitType (pathname req)) now2 store1 in
            (Next rateLimitInfo, store2)
        end
    end.

(** A request with the two times at which the clock is read for it. *)
Record Arrival : Type := mkArrival {
  request : Request;
  first_read : Z;
  second_read : Z
}.

Fixpoint serve (arrivals : list Arrival) (store : Store) : list Response * Store :=
  match arrivals with
  | [] => ([], store)
  | a :: later =>
      let (response, store1) :=
        middleware (request a) (first_read a) (second_read a) store in
      let (responses, store2) := serve later store1 in
      (response :: responses, store2)
  end.

Definition passed (r : Response) : bool :=
  match r with Next _ => true | _ => false end.

(** A request of the caller [address] under the endpoint type
    [endpointType] that is neither a preflight request nor refused by
    the authentication check. *)
Definition ordinary (address endpointType : string) (req : Request) : bool :=
  String.eqb (ip req) address
  && String.eqb (rateLimitType (pathname req)) endpointType
  && negb (String.eqb (method req) "OPTIONS" && String.prefix "/api/" (pathname req))
  && match authMiddleware req with None => true | Some _ => false end.

(** After [j] requests the window opened at [opened] holds [i] calls:
    two for each request so far, or the quota is used up. *)
Definition counted (address endpointType : string) (window quota opened : Z)
    (j : nat) (store : Store) : Prop :=
  exists i,
    Limits.in_window address endpointType opened window quota i store
    /\ (i = 2 * Z.of_nat j \/ (quota <= i /\ quota <= 2 * Z.of_nat j))%Z.

End Middleware.
(** * Properties *)

Import JS Supabase AdvancedScoringSystem Statement.

(** ** Arithmetic of [Math.round] and [Math.max] *)

Lemma round_Q_mono (x y : Q) : (x <= y)%Q -> round_Q x <= round_Q y.
Proof.
  intros Hxy. unfold round_Q. apply Qfloor_resp_le. lra.
Qed.

Lemma round_Q_lower (x : Q) : (x - (1 # 2) < inject_Z (round_Q x))%Q.
Proof.
  unfold round_Q.
  pose proof (Qlt_floor (x + (1 # 2))) as H.
  rewrite inject_Z_plus in H. change (inject_Z 1) with 1%Q in H. lra.
Qed.

Lemma round_Q_upper (x : Q) : (inject_Z (round_Q x) <= x + (1 # 2))%Q.
Proof.
  unfold round_Q. apply Qfloor_le.
Qed.

(** Two integers less than one apart as rationals are ordered. *)
Lemma inject_Z_gap (a b : Z) : (inject_Z a - 1 < inject_Z b)%Q -> a <= b.
Proof.
  intros H.
  assert (Hlt : (inject_Z (a + - (1)) < inject_Z b)%Q).
  { rewrite inject_Z_plus, inject_Z_opp. change (inject_Z 1) with 1%Q. lra. }
  rewrite <- Zlt_Qlt in Hlt. lia.
Qed.

Lemma round_Q_inject (z : Z) : round_Q (inject_Z z) = z.
Proof.
  pose proof (round_Q_upper (inject_Z z)) as Hu.
  pose proof (round_Q_lower (inject_Z z)) as Hl.
  apply Z.le_antisymm; apply inject_Z_gap; lra.
Qed.

Lemma max_Q_ge_l (x y : Q) : (x <= max_Q x y)%Q.
Proof.
  unfold max_Q. destruct (Qle_bool x y) eqn:E.
  - now apply Qle_bool_iff.
  - apply Qle_refl.
Qed.

Lemma max_Q_ge_r (x y : Q) : (y <= max_Q x y)%Q.
Proof.
  unfold max_Q. destruct (Qle_bool x y) eqn:E.
  - apply Qle_refl.
  - destruct (Qlt_le_dec y x) as [H | H].
    + now apply Qlt_le_weak.
    + apply Qle_bool_iff in H. congruence.
Qed.

Lemma max_Q_mono_r (x y y' : Q) : (y <= y')%Q -> (max_Q x y <= max_Q x y')%Q.
Proof.
  intros H. unfold max_Q.
  destruct (Qle_bool x y) eqn:E; destruct (Qle_bool x y') eqn:E'.
  - exact H.
  - apply Qle_bool_iff in E.
    assert (Qle_bool x y' = true) by (apply Qle_bool_iff; lra). congruence.
  - exact (proj1 (Qle_bool_iff _ _) E').
  - apply Qle_refl.
Qed.

Lemma lt_Q_iff (x y : Q) : lt_Q x y = true <-> (x < y)%Q.
Proof.
  unfold lt_Q. rewrite negb_true_iff. split.
  - intros E. destruct (Qlt_le_dec x y) as [H | H]; [exact H |].
    apply Qle_bool_iff in H. congruence.
  - intros H. destruct (Qle_bool y x) eqn:E; [| reflexivity].
    apply Qle_bool_iff in E. lra.
Qed.

(** ** The team-size modifier *)

Lemma teamSizeModifier_solo (teamSize maxTeamSize : Z) :
  teamSize <= 1 -> calculateTeamSizeModifier teamSize maxTeamSize = 1%Q.
Proof.
  intros H. unfold calculateTeamSizeModifier.
  destruct (Z.leb_spec teamSize 1); [reflexivity | lia].
Qed.

Lemma teamSizeModifier_floor (teamSize maxTeamSize : Z) :
  (7 # 10 <= calculateTeamSizeModifier teamSize maxTeamSize)%Q.
Proof.
  unfold calculateTeamSizeModifier.
  destruct (teamSize <=? 1); [lra |].
  destruct (maxTeamSize =? 0); [lra |].
  apply max_Q_ge_l.
Qed.

Lemma ratio_mono (a b m : Z) :
  0 < m -> a <= b -> (inject_Z a / inject_Z m <= inject_Z b / inject_Z m)%Q.
Proof.
  intros Hm Hab.
  assert (Hq : (0 < inject_Z m)%Q) by (change 0%Q with (inject_Z 0); now rewrite <- Zlt_Qlt).
  assert (Hab' : (inject_Z a <= inject_Z b)%Q) by now rewrite <- Zle_Qle.
  unfold Qdiv. apply Qmult_le_compat_r; [exact Hab' |].
  apply Qlt_le_weak, Qinv_lt_0_compat, Hq.
Qed.

(** Above one member the modifier does not increase with the team size. *)
Lemma teamSizeModifier_antitone (t t' maxTeamSize : Z) :
  1 <= maxTeamSize -> 2 <= t -> t <= t' ->
  (calculateTeamSizeModifier t' maxTeamSize <= calculateTeamSizeModifier t maxTeamSize)%Q.
Proof.
  intros Hm Ht Htt'. unfold calculateTeamSizeModifier.
  destruct (Z.leb_spec t 1); [lia |].
  destruct (Z.leb_spec t' 1); [lia |].
  destruct (Z.eqb_spec maxTeamSize 0); [lia |].
  apply max_Q_mono_r.
  pose proof (ratio_mono t t' maxTeamSize ltac:(lia) Htt') as Hr. lra.
Qed.

(** A team that fills its quota or exceeds it is not rewarded. *)
Lemma teamSizeModifier_full (t maxTeamSize : Z) :
  1 <= maxTeamSize -> maxTeamSize <= t ->
  (calculateTeamSizeModifier t maxTeamSize <= 1)%Q.
Proof.
  intros Hm Ht. unfold calculateTeamSizeModifier.
  destruct (Z.leb_spec t 1); [lra |].
  destruct (Z.eqb_spec maxTeamSize 0); [lia |].
  pose proof (ratio_mono maxTeamSize t maxTeamSize ltac:(lia) Ht) as Hr.
  assert (Hone : (inject_Z maxTeamSize / inject_Z maxTeamSize == 1)%Q).
  { apply Qmult_inv_r. intros E.
    assert (maxTeamSize = 0) by (apply inject_Z_injective; exact E). lia. }
  rewrite Hone in Hr.
  unfold max_Q. destruct (Qle_bool _ _); lra.
Qed.

(** C2.  A team of two with the default quota of four gets the modifier
    1.15: it lies outside (0, 1] and is larger than the modifier 1.0 of a
    single player, so the modifier is not non-increasing in the team size.
    The source comments call the modifier a penalty for larger teams. *)
Theorem teamSizeModifier_two_of_four :
  (calculateTeamSizeModifier 2 4 == 115 # 100)%Q
  /\ (calculateTeamSizeModifier 1 4 == 1)%Q
  /\ 1 <= 2 /\ 1 <= 4
  /\ (1 < calculateTeamSizeModifier 2 4)%Q
  /\ (calculateTeamSizeModifier 1 4 < calculateTeamSizeModifier 2 4)%Q.
Proof.
  repeat split; try lia; vm_compute; reflexivity.
Qed.

(** ** The speed bonus *)

Lemma negative_hours (releaseMs solveMs k : Z) :
  solveMs - releaseMs < 0 -> 0 <= k ->
  le (timeDiffHours (Some releaseMs) (Some solveMs)) (of_Z k) = true.
Proof.
  intros Hneg Hk. unfold timeDiffHours, of_Z, le. apply Qle_bool_iff.
  assert (Hd : (inject_Z (solveMs - releaseMs) <= 0)%Q).
  { change 0%Q with (inject_Z 0). rewrite <- Zle_Qle. lia. }
  assert (Hk' : (0 <= inject_Z k)%Q).
  { change 0%Q with (inject_Z 0). now rewrite <- Zle_Qle. }
  apply Qle_trans with (y := 0%Q); [| exact Hk'].
  unfold Qdiv.
  setoid_replace 0%Q with (0 * / inject_Z (1000 * 60 * 60))%Q by ring.
  apply Qmult_le_compat_r; [exact Hd |].
  vm_compute. discriminate.
Qed.

(** C3, as it fails: a solve one hour before the release of an easy
    challenge is granted the fast-solve bonus of 25. *)
Lemma speedBonus_before_release :
  0 - 3600000 < 0
  /\ calculateSpeedBonus (Some 3600000) (Some 0) "easy" = 25
  /\ calculateSpeedBonus (Some 3600000) (Some 0) "easy" <> 0.
Proof.
  split; [lia |]. split; [reflexivity | discriminate].
Qed.

(** C3, amended.  When the solve precedes the release, the elapsed time
    is below every fast threshold: the bonus is 25, whatever the
    difficulty, known or not (a name of a member of [Object.prototype]
    apart), and no error is raised. *)
Theorem speedBonus_negative_elapsed (releaseMs solveMs : Z) (difficulty : string) :
  solveMs - releaseMs < 0 ->
  inherited difficulty = false ->
  calculateSpeedBonus (Some releaseMs) (Some solveMs) difficulty = 25.
Proof.
  intros Hneg Hinh. unfold calculateSpeedBonus, get.
  assert (Hown : match own speedThresholds difficulty with
                 | Some t => 0 <= fast t
                 | None => True
                 end).
  { unfold speedThresholds, own.
    repeat match goal with
           | |- context [String.eqb ?a ?b] => destruct (String.eqb a b)
           end; simpl; try lia; exact I. }
  destruct (own speedThresholds difficulty) as [t |].
  - now rewrite (negative_hours _ _ _ Hneg Hown).
  - rewrite Hinh.
    now rewrite (negative_hours _ _ (fast speedThresholds_medium) Hneg ltac:(simpl; lia)).
Qed.

Lemma speedBonus_negative_elapsed_witness :
  calculateSpeedBonus (Some 3600000) (Some 0) "unheard of" = 25.
Proof.
  apply (speedBonus_negative_elapsed 3600000 0 "unheard of"); [lia | reflexivity].
Defined.

(** The bonus is one of the three amounts, hence never negative. *)
Lemma speedBonus_range (release solve : DateString) (difficulty : string) :
  0 <= calculateSpeedBonus release solve difficulty <= 25.
Proof.
  unfold calculateSpeedBonus.
  destruct (get speedThresholds difficulty);
    repeat match goal with
           | |- context [if ?b then _ else _] => destruct b
           end; lia.
Qed.

(** ** Running the engine against the client *)

Local Open Scope async_scope.

(** A read leaves the tables as they are. *)
Lemma select_database {A : Type} (run : Database -> option A) (c : Client) :
  database (snd (select run c)) = database c.
Proof.
  unfold select, next_fault. destruct (hd Answers (faults c)); reflexivity.
Qed.

Lemma select_answered {A : Type} (run : Database -> option A) (d : Database)
    (fs : list Fault) :
  hd Answers fs = Answers ->
  select run (mkClient d fs) = (Returned (run d), mkClient d (tl fs)).
Proof.
  intros H. unfold select, next_fault. simpl. now rewrite H.
Qed.

Lemma select_failed {A : Type} (run : Database -> option A) (d : Database)
    (fs : list Fault) :
  hd Answers fs = Fails ->
  select run (mkClient d fs) = (Returned None, mkClient d (tl fs)).
Proof.
  intros H. unfold select, next_fault. simpl. now rewrite H.
Qed.

Lemma select_thrown {A : Type} (run : Database -> option A) (d : Database)
    (fs : list Fault) :
  hd Answers fs = Throws ->
  select run (mkClient d fs) = (Thrown, mkClient d (tl fs)).
Proof.
  intros H. unfold select, next_fault. simpl. now rewrite H.
Qed.

(** A [try] whose handler returns a value always returns. *)
Lemma try_catch_returns {A : Type} (body : Async A) (a0 : A) (c : Client) :
  exists a c', try_catch body (ret a0) c = (Returned a, c').
Proof.
  unfold try_catch, ret. destruct (body c) as [[a |] c']; eauto.
Qed.

(** What holds of every value the body returns, and of the fallback,
    holds of the value the [try] returns. *)
Lemma try_catch_ind {A : Type} (P : A -> Prop) (body : Async A) (a0 : A)
    (c : Client) :
  (forall a c', body c = (Returned a, c') -> P a) -> P a0 ->
  exists a, fst (try_catch body (ret a0) c) = Returned a /\ P a.
Proof.
  intros Hbody H0. unfold try_catch, ret.
  destruct (body c) as [[a |] c'] eqn:E; simpl; eauto.
Qed.

Lemma calculateDynamicPoints_returns (challengeId : string) (c : Client) :
  exists n c', calculateDynamicPoints challengeId c = (Returned n, c').
Proof.
  apply try_catch_returns.
Qed.

Lemma calculateFirstBloodBonus_returns (challengeId teamId : string) (c : Client) :
  exists fb c', calculateFirstBloodBonus challengeId teamId c = (Returned fb, c').
Proof.
  apply try_catch_returns.
Qed.

(** C4.  Every scoring computation returns a breakdown, and its total is
    [round(dynamicPoints x teamSizeModifier) + firstBloodBonus + speedBonus]
    computed from the fields the breakdown itself records; this covers
    the fallback breakdown returned when the first read throws. *)
Theorem breakdown_self_consistent
    (challengeId teamId : string) (teamSize : Z) (solveTime : DateString)
    (c : Client) :
  exists r,
    fst (calculateTotalScore challengeId teamId teamSize solveTime c) = Returned r
    /\ totalPoints r = recomputed r.
Proof.
  unfold calculateTotalScore. apply try_catch_ind.
  - intros r c' Hbody. unfold bind in Hbody.
    destruct (challenge_by_id challengeId c) as [[challenge |] c1]; [| discriminate].
    destruct (calculateDynamicPoints challengeId c1) as [[dyn |] c2]; [| discriminate].
    destruct (calculateFirstBloodBonus challengeId teamId c2) as [[fb |] c3];
      [| discriminate].
    unfold ret in Hbody. injection Hbody as <- _. reflexivity.
  - vm_compute. reflexivity.
Qed.

(** ** The first-blood bonus *)

Lemma least_nil {A : Type} (key : A -> Z) (rows : list A) :
  least key rows = [] <-> rows = [].
Proof.
  destruct rows as [| r rest]; simpl; [tauto |].
  destruct (least key rest) as [| m ?]; [| destruct (key r <=? key m)];
    split; discriminate.
Qed.

Lemma least_short {A : Type} (key : A -> Z) (rows : list A) :
  (List.length (least key rows) <= 1)%nat.
Proof.
  destruct rows as [| r rest]; simpl; [lia |].
  destruct (least key rest) as [| m ?]; [| destruct (key r <=? key m)];
    simpl; lia.
Qed.

(** [.limit(1).single()] finds a row exactly when one exists. *)
Lemma single_least {A : Type} (key : A -> Z) (rows : list A) :
  single (least key rows) = None <-> rows = [].
Proof.
  rewrite <- (least_nil key rows).
  pose proof (least_short key rows) as H.
  destruct (least key rows) as [| m [| m' ?]]; simpl in *;
    split; try discriminate; try reflexivity; lia.
Qed.

Lemma earliest_solve_none (d : Database) (challengeId : string) :
  earliest_solve d challengeId = None <-> solves_of challengeId d = [].
Proof.
  apply single_least.
Qed.

(** With both reads answered, the computation is first blood exactly when
    no solve of the challenge is stored, and then offers the configured
    amount, 50 standing in for an amount that is absent or zero. *)
Lemma firstBlood_answered (challengeId teamId : string) (d : Database)
    (fs : list Fault) :
  hd Answers fs = Answers -> hd Answers (tl fs) = Answers ->
  fst (calculateFirstBloodBonus challengeId teamId (mkClient d fs))
  = Returned (match solves_of challengeId d with
              | [] => mkFirstBlood (or_Z (configured_bonus d) 50) true
              | _ :: _ => mkFirstBlood 0 false
              end).
Proof.
  intros H0 H1.
  unfold calculateFirstBloodBonus, try_catch, bind, first_solve, latest_settings.
  rewrite (select_answered _ _ _ H0).
  destruct (earliest_solve d challengeId) as [row |] eqn:E.
  - destruct (solves_of challengeId d) eqn:Es; [| reflexivity].
    apply earliest_solve_none in Es. congruence.
  - apply earliest_solve_none in E. rewrite E.
    rewrite (select_answered _ _ _ H1). reflexivity.
Qed.

(** ** The dynamic points *)

Lemma max_of_Z (a b : Z) : max (of_Z a) (of_Z b) = of_Z (Z.max a b).
Proof.
  unfold max, of_Z, max_Q. f_equal.
  destruct (Qle_bool (inject_Z a) (inject_Z b)) eqn:E.
  - apply Qle_bool_iff in E. rewrite <- Zle_Qle in E.
    now rewrite Z.max_r.
  - destruct (Z.le_gt_cases a b) as [H | H].
    + rewrite Zle_Qle in H. apply Qle_bool_iff in H. congruence.
    + rewrite Z.max_l by lia. reflexivity.
Qed.

Lemma rarity_agrees (solveCount totalTeams : Z) :
  rarityMultiplier (inject_Z solveCount / inject_Z totalTeams)
  = Spec.rarityMultiplier solveCount totalTeams.
Proof.
  reflexivity.
Qed.

Ltac split_rarity :=
  unfold rarityMultiplier;
  repeat match goal with
         | |- context [Qeq_bool ?x ?y] =>
             let E := fresh "E" in
             destruct (Qeq_bool x y) eqn:E;
             [apply Qeq_bool_iff in E | apply Qeq_bool_neq in E]
         | |- context [lt_Q ?x ?y] =>
             let E := fresh "E" in
             destruct (lt_Q x y) eqn:E;
             [apply lt_Q_iff in E
             | apply not_true_iff_false in E; rewrite lt_Q_iff in E]
         end.

Lemma rarity_lower (solveRate : Q) : (7 # 10 <= rarityMultiplier solveRate)%Q.
Proof.
  split_rarity; lra.
Qed.

(** The rarity table does not increase with the solve rate. *)
Lemma rarity_antitone (r r' : Q) :
  (0 <= r)%Q -> (r <= r')%Q -> (rarityMultiplier r' <= rarityMultiplier r)%Q.
Proof.
  intros H0 Hle. split_rarity; lra.
Qed.

Lemma own_forallb (P : string * Q -> bool) (table : list (string * Q))
    (k : string) (q : Q) :
  forallb P table = true -> own table k = Some q -> exists k', P (k', q) = true.
Proof.
  induction table as [| [k' q'] rest IH]; simpl; [discriminate |].
  intros H Hown. apply andb_prop in H as [Hhd Htl].
  destruct (String.eqb k k').
  - injection Hown as <-. eauto.
  - auto.
Qed.

(** Away from the inherited names, [table[key] || 1.0] is the lookup
    with default 1.0. *)
Lemma factor_is_lookup (table : list (string * Q)) (key : option string) :
  entries_nonzero table = true -> own table "null" = None ->
  inherited (key_of key) = false ->
  factor_or (get table (key_of key)) 1 = Fin (Spec.lookup table key).
Proof.
  intros Hnz Hnull Hinh. unfold get, Spec.lookup.
  destruct key as [k |]; simpl in *.
  - destruct (own table k) as [q |] eqn:E.
    + destruct (own_forallb _ _ _ _ Hnz E) as [k' Hq]. simpl in Hq.
      apply negb_true_iff in Hq. simpl. now rewrite Hq.
    + now rewrite Hinh.
  - now rewrite Hnull.
Qed.

Lemma lookup_at_least_one (table : list (string * Q)) (key : option string) :
  entries_at_least_one table = true -> (1 <= Spec.lookup table key)%Q.
Proof.
  intros H. unfold Spec.lookup. destruct key as [k |]; [| lra].
  destruct (own table k) as [q |] eqn:E; [| lra].
  destruct (own_forallb _ _ _ _ H E) as [k' Hq]. simpl in Hq.
  now apply Qle_bool_iff.
Qed.

Lemma daily_agrees (ch : Challenge) :
  dailyMultiplier (daily ch) = Spec.dailyMultiplier (Spec.is_daily ch).
Proof.
  unfold dailyMultiplier, Spec.dailyMultiplier, Spec.is_daily.
  destruct (daily ch) as [[|] |]; reflexivity.
Qed.

Lemma valid_fields_inv (ch : Challenge) :
  Spec.valid_fields ch = true ->
  0 < Spec.base_of ch
  /\ or_Z (points ch) 100 = Spec.base_of ch
  /\ inherited (key_of (difficulty ch)) = false
  /\ inherited (key_of (category ch)) = false.
Proof.
  unfold Spec.valid_fields, Spec.base_of, or_Z. intros H.
  apply andb_prop in H as [H Hcat]. apply andb_prop in H as [Hp Hdiff].
  apply negb_true_iff in Hcat, Hdiff.
  destruct (points ch) as [p |]; [| discriminate].
  apply Z.ltb_lt in Hp.
  destruct (Z.eqb_spec p 0); [lia |]. auto.
Qed.

(** On valid fields and a non-zero team count the code computes the
    specified formula. *)
Lemma dynamicPointsOf_formula (ch : Challenge) (totalTeams solveCount : Z) :
  Spec.valid_fields ch = true -> totalTeams <> 0 ->
  dynamicPointsOf ch (Some totalTeams) (Some solveCount)
  = of_Z (Spec.computeDynamicPoints difficultyMultiplier categoryMultiplier
            (Spec.base_of ch) (difficulty ch) (category ch) (Spec.is_daily ch)
            solveCount totalTeams).
Proof.
  intros Hv HT.
  destruct (valid_fields_inv ch Hv) as (Hp & Hbase & Hd & Hc).
  unfold dynamicPointsOf, Spec.computeDynamicPoints.
  rewrite Hbase.
  assert (Hsc : or_Z (Some solveCount) 0 = solveCount).
  { unfold or_Z. destruct (Z.eqb_spec solveCount 0); congruence. }
  rewrite Hsc, rarity_agrees, daily_agrees.
  rewrite (factor_is_lookup difficultyMultiplier (difficulty ch)) by (reflexivity || exact Hd).
  rewrite (factor_is_lookup categoryMultiplier (category ch)) by (reflexivity || exact Hc).
  destruct totalTeams; [congruence | |]; simpl; apply max_of_Z.
Qed.

(** [Math.round] of a multiple of a tenth, in integer arithmetic. *)
Lemma round_Q_tenths (z : Z) (k : positive) :
  round_Q (inject_Z z * (Zpos k # 10))%Q = (Zpos k * z + 5) / 10.
Proof.
  unfold round_Q.
  assert (E : (inject_Z z * (Zpos k # 10) + (1 # 2) == (Zpos k * z + 5) # 10)%Q).
  { unfold Qeq, Qplus, Qmult, inject_Z. cbn [Qnum Qden].
    rewrite !Pos2Z.inj_mul. lia. }
  rewrite (Qfloor_comp _ _ E). reflexivity.
Qed.

Lemma scale_up (x f : Q) : (0 <= x)%Q -> (1 <= f)%Q -> (x <= x * f)%Q.
Proof.
  intros Hx Hf. nra.
Qed.

Lemma scale_mono (x y f : Q) : (x <= y)%Q -> (0 <= f)%Q -> (x * f <= y * f)%Q.
Proof.
  intros Hxy Hf. nra.
Qed.

Lemma inject_Z_pos (z : Z) : 0 < z -> (0 < inject_Z z)%Q.
Proof.
  intros H. change 0%Q with (inject_Z 0). now rewrite <- Zlt_Qlt.
Qed.

Lemma spec_daily_at_least_one (daily : bool) : (1 <= Spec.dailyMultiplier daily)%Q.
Proof.
  destruct daily; simpl; lra.
Qed.

Section SpecifiedPoints.

Variables difficultyTable categoryTable : list (string * Q).
Hypothesis difficulty_entries : entries_at_least_one difficultyTable = true.
Hypothesis category_entries : entries_at_least_one categoryTable = true.

Variable basePoints : Z.
Hypothesis base_positive : 0 < basePoints.
Variables difficulty category : option string.
Variable daily : bool.

(** The specified points never fall below [round(0.7 x basePoints)]. *)
Lemma spec_points_lower (solveCount totalTeams : Z) :
  round_Q (inject_Z basePoints * (7 # 10))%Q
  <= Spec.computeDynamicPoints difficultyTable categoryTable
    basePoints difficulty category daily solveCount totalTeams.
Proof.
  unfold Spec.computeDynamicPoints.
  etransitivity; [| apply Z.le_max_l].
  apply round_Q_mono.
  pose proof (inject_Z_pos _ base_positive) as Hb.
  pose proof (lookup_at_least_one _ difficulty difficulty_entries) as Hd.
  pose proof (lookup_at_least_one _ category category_entries) as Hc.
  pose proof (spec_daily_at_least_one daily) as Hdl.
  pose proof (rarity_lower (inject_Z solveCount / inject_Z totalTeams)) as Hr.
  rewrite rarity_agrees in Hr.
  set (r := Spec.rarityMultiplier solveCount totalTeams) in *.
  assert (H1 : (inject_Z basePoints * (7 # 10) <= inject_Z basePoints * r)%Q) by nra.
  assert (H0 : (0 <= inject_Z basePoints * r)%Q) by nra.
  pose proof (scale_up _ _ H0 Hd) as H2.
  assert (H2' : (0 <= inject_Z basePoints * r * Spec.lookup difficultyTable difficulty)%Q)
    by lra.
  pose proof (scale_up _ _ H2' Hc) as H3.
  assert (H3' : (0 <= inject_Z basePoints * r * Spec.lookup difficultyTable difficulty
                      * Spec.lookup categoryTable category)%Q) by lra.
  pose proof (scale_up _ _ H3' Hdl) as H4.
  lra.
Qed.

End SpecifiedPoints.

(** ** The engine under failing reads *)

Lemma fate_hd (fs : list Fault) : hd Answers fs = fate 0 fs.
Proof.
  destruct fs; reflexivity.
Qed.

Lemma fate_tl (n : nat) (fs : list Fault) : fate n (tl fs) = fate (S n) fs.
Proof.
  destruct fs; [destruct n |]; reflexivity.
Qed.

(** The value of [calculateDynamicPoints], by the fate of its three
    reads. *)
Lemma calculateDynamicPoints_run (challengeId : string) (d : Database)
    (fs : list Fault) :
  fst (calculateDynamicPoints challengeId (mkClient d fs))
  = Returned
      match fate 0 fs with
      | Throws => of_Z 100
      | Fails => of_Z 0
      | Answers =>
          match find_challenge d challengeId with
          | None => of_Z 0
          | Some ch =>
              match fate 1 fs, fate 2 fs with
              | Throws, _ | _, Throws => of_Z 100
              | t, s =>
                  dynamicPointsOf ch (counted t (eligible_teams d))
                                     (counted s (solve_count d challengeId))
              end
          end
      end.
Proof.
  unfold calculateDynamicPoints, try_catch, bind, challenge_by_id, count_teams,
    count_solves, select, next_fault, ret.
  rewrite <- !fate_tl, <- !fate_hd. simpl.
  destruct (hd Answers fs); simpl; try reflexivity.
  destruct (find_challenge d challengeId); simpl; try reflexivity.
  destruct (hd Answers (tl fs)); simpl; try reflexivity;
    destruct (hd Answers (tl (tl fs))); reflexivity.
Qed.

Lemma bind_database {A B : Type} (m : Async A) (k : A -> Async B) (c : Client) :
  (forall c0, database (snd (m c0)) = database c0) ->
  (forall a c0, database (snd (k a c0)) = database c0) ->
  database (snd (bind m k c)) = database c.
Proof.
  intros Hm Hk. unfold bind. specialize (Hm c).
  destruct (m c) as [[a |] c1]; simpl in *; [| exact Hm].
  now rewrite Hk.
Qed.

Lemma try_catch_database {A : Type} (body : Async A) (a0 : A) (c : Client) :
  (forall c0, database (snd (body c0)) = database c0) ->
  database (snd (try_catch body (ret a0) c)) = database c.
Proof.
  intros Hb. unfold try_catch, ret. specialize (Hb c).
  destruct (body c) as [[a |] c1]; exact Hb.
Qed.

(** The engine only reads: it hands the tables back as it found them. *)
Lemma calculateDynamicPoints_database (challengeId : string) (c : Client) :
  database (snd (calculateDynamicPoints challengeId c)) = database c.
Proof.
  unfold calculateDynamicPoints. apply try_catch_database. intros c0.
  unfold challenge_by_id, count_teams, count_solves.
  apply bind_database; [intros; apply select_database |].
  intros [ch |] c1; [| reflexivity].
  apply bind_database; [intros; apply select_database |]. intros t c2.
  apply bind_database; [intros; apply select_database |]. reflexivity.
Qed.

Lemma calculateFirstBloodBonus_database (challengeId teamId : string) (c : Client) :
  database (snd (calculateFirstBloodBonus challengeId teamId c)) = database c.
Proof.
  unfold calculateFirstBloodBonus. apply try_catch_database. intros c0.
  unfold first_solve, latest_settings.
  apply bind_database; [intros; apply select_database |].
  intros [row |] c1; [reflexivity |].
  apply bind_database; [intros; apply select_database |]. reflexivity.
Qed.

Lemma or_Z_nonneg (x : option Z) (dflt : Z) :
  0 <= dflt -> (forall b, x = Some b -> 0 <= b) -> 0 <= or_Z x dflt.
Proof.
  intros Hd Hx. unfold or_Z. destruct x as [b |]; [| exact Hd].
  destruct (b =? 0); auto.
Qed.

(** The bonus offered is not negative when the configured amount is not. *)
Lemma firstBlood_nonneg (challengeId teamId : string) (c : Client) :
  (forall b, configured_bonus (database c) = Some b -> 0 <= b) ->
  exists fb c',
    calculateFirstBloodBonus challengeId teamId c = (Returned fb, c')
    /\ 0 <= fb_points fb.
Proof.
  intros Hcfg. destruct c as [d fs]. simpl in Hcfg.
  assert (H50 : 0 <= or_Z (configured_bonus d) 50) by (apply or_Z_nonneg; [lia | exact Hcfg]).
  unfold calculateFirstBloodBonus, try_catch, bind, first_solve, latest_settings,
    select, next_fault, ret. simpl.
  destruct (hd Answers fs); simpl;
    [destruct (earliest_solve d challengeId); simpl | |];
    try destruct (hd Answers (tl fs)); simpl;
    eexists _, _; (split; [reflexivity | simpl; try lia; try exact H50]).
Qed.

(** ** The 30% floor *)

Lemma dynamicPointsOf_lower (ch : Challenge) (totalTeams solveCount : option Z) :
  Spec.valid_fields ch = true ->
  exists n,
    dynamicPointsOf ch totalTeams solveCount = of_Z n
    /\ round_Q (inject_Z (Spec.base_of ch) * (7 # 10))%Q <= n.
Proof.
  intros Hv. destruct (valid_fields_inv ch Hv) as (Hp & Hbase & _).
  assert (Hflat : round_Q (inject_Z (Spec.base_of ch) * (7 # 10))%Q <= Spec.base_of ch)
    by (rewrite round_Q_tenths; Z.div_mod_to_equations; lia).
  destruct totalTeams as [T |].
  - destruct (Z.eq_dec T 0) as [-> | HT].
    + exists (Spec.base_of ch). unfold dynamicPointsOf. now rewrite Hbase.
    + assert (Hsc : exists sc, dynamicPointsOf ch (Some T) solveCount
                               = dynamicPointsOf ch (Some T) (Some sc)).
      { destruct solveCount as [sc |]; [now exists sc | exists 0; destruct T; reflexivity]. }
      destruct Hsc as [sc ->]. rewrite (dynamicPointsOf_formula _ _ _ Hv HT).
      eexists. split; [reflexivity |].
      apply (spec_points_lower difficultyMultiplier categoryMultiplier
               eq_refl eq_refl (Spec.base_of ch) Hp).
  - exists (Spec.base_of ch). unfold dynamicPointsOf. now rewrite Hbase.
Qed.

(** The combination step keeps the total above the floor. *)
Lemma combined_above_floor (p n fb sp : Z) (modifier : Q) :
  0 < p -> round_Q (inject_Z p * (7 # 10))%Q <= n -> (7 # 10 <= modifier)%Q ->
  0 <= fb -> 0 <= sp ->
  ge (add (add (round (mul (of_Z n) (Fin modifier))) (of_Z fb)) (of_Z sp))
     (floor30 (of_Z p)) = true.
Proof.
  intros Hp Hn Hm Hfb Hsp.
  unfold ge, le, floor30, add, round, mul, lift2, of_Z.
  apply Qle_bool_iff. rewrite <- !inject_Z_plus, <- Zle_Qle.
  rewrite round_Q_tenths in Hn |- *.
  assert (Hn0 : 0 <= n) by (Z.div_mod_to_equations; lia).
  assert (Hscaled : (7 * n + 5) / 10 <= round_Q (inject_Z n * modifier)%Q).
  { rewrite <- (round_Q_tenths n 7). apply round_Q_mono.
    assert (Hq : (0 <= inject_Z n)%Q) by (change 0%Q with (inject_Z 0); now rewrite <- Zle_Qle).
    nra. }
  Z.div_mod_to_equations. lia.
Qed.

(** C1, as it fails: the read of the challenge inside
    [calculateDynamicPoints] fails for a challenge worth 1000 points; the
    dynamic points are 0 and, with neither bonus, so is the total, below
    the floor of 300. *)
Lemma total_below_floor_when_read_fails :
  exists r,
    fst (calculateTotalScore "c2" "red" 1 (Some 360000000)
           (mkClient Scenario.late [Answers; Fails])) = Returned r
    /\ basePoints r = of_Z 1000
    /\ floor30 (basePoints r) = of_Z 300
    /\ totalPoints r = of_Z 0
    /\ ge (totalPoints r) (floor30 (basePoints r)) = false.
Proof.
  eexists. split; [vm_compute; reflexivity |].
  repeat split; vm_compute; reflexivity.
Qed.

(** C1, amended.  When both reads of the challenge are answered with a
    row of valid fields, neither count read throws, and the configured
    first-blood bonus is not negative, the total is at least
    [round(basePoints x 0.3)], whatever the team size, the solve count
    and the solve time, and whatever becomes of the first-blood reads. *)
Theorem total_at_least_floor
    (d : Database) (fs : list Fault) (challengeId teamId : string)
    (teamSize : Z) (solveTime : DateString) (ch : Challenge) :
  find_challenge d challengeId = Some ch ->
  Spec.valid_fields ch = true ->
  fate 0 fs = Answers -> fate 1 fs = Answers ->
  fate 2 fs <> Throws -> fate 3 fs <> Throws ->
  (forall b, configured_bonus d = Some b -> 0 <= b) ->
  exists r,
    fst (calculateTotalScore challengeId teamId teamSize solveTime (mkClient d fs))
    = Returned r
    /\ basePoints r = of_Z (Spec.base_of ch)
    /\ ge (totalPoints r) (floor30 (basePoints r)) = true.
Proof.
  intros Hfind Hv H0 H1 H2 H3 Hcfg.
  destruct (valid_fields_inv ch Hv) as (Hp & Hbase & _).
  unfold calculateTotalScore, try_catch, bind, challenge_by_id.
  rewrite select_answered by now rewrite fate_hd.
  rewrite Hfind.
  pose proof (calculateDynamicPoints_run challengeId d (tl fs)) as Hrun.
  pose proof (calculateDynamicPoints_database challengeId (mkClient d (tl fs))) as Hdb.
  rewrite !fate_tl, H1, Hfind in Hrun.
  assert (Hdyn : exists n,
             fst (calculateDynamicPoints challengeId (mkClient d (tl fs)))
             = Returned (of_Z n)
             /\ round_Q (inject_Z (Spec.base_of ch) * (7 # 10))%Q <= n).
  { rewrite Hrun.
    destruct (fate 2 fs) eqn:E2; try congruence;
      destruct (fate 3 fs) eqn:E3; try congruence; cbv zeta;
      match goal with
      | |- context [dynamicPointsOf ch ?t ?s] =>
          destruct (dynamicPointsOf_lower ch t s Hv) as (n & -> & Hn)
      end; eauto. }
  destruct Hdyn as (n & Hdyn & Hn).
  destruct (calculateDynamicPoints challengeId (mkClient d (tl fs))) as [dyn c2].
  simpl in Hdyn, Hdb. subst dyn.
  destruct (firstBlood_nonneg challengeId teamId c2) as (fb & c3 & Hfb & Hpts);
    [now rewrite Hdb |].
  rewrite Hfb. unfold ret. simpl. eexists. split; [reflexivity |]. simpl.
  rewrite Hbase. split; [reflexivity |].
  apply combined_above_floor; try assumption.
  - apply teamSizeModifier_floor.
  - apply speedBonus_range.
Qed.

Lemma total_at_least_floor_witness :
  exists r,
    fst (calculateTotalScore "c1" "red" 3 (Some 1800000)
           (mkClient Scenario.fresh [])) = Returned r
    /\ basePoints r = of_Z 100
    /\ ge (totalPoints r) (floor30 (basePoints r)) = true.
Proof.
  apply (total_at_least_floor Scenario.fresh [] "c1" "red" 3 (Some 1800000)
           Scenario.hard_crypto);
    try reflexivity; try discriminate.
Defined.

(** ** The dynamic points against the specification *)

Lemma dynamicPoints_answered (d : Database) (fs : list Fault)
    (challengeId : string) (ch : Challenge) :
  find_challenge d challengeId = Some ch ->
  fate 0 fs = Answers -> fate 1 fs = Answers -> fate 2 fs = Answers ->
  fst (calculateDynamicPoints challengeId (mkClient d fs))
  = Returned (dynamicPointsOf ch (Some (eligible_teams d))
                (Some (solve_count d challengeId))).
Proof.
  intros Hfind H0 H1 H2.
  now rewrite calculateDynamicPoints_run, H0, H1, H2, Hfind.
Qed.

(** C5.  A challenge of 100 points, difficulty "easy" and category
    "constructor", with one eligible team and no solve.  The category is
    not among the categories of the table, so the claim gives it the
    multiplier 1.0 and the challenge 200 points (100 x 2.0 x 1.0 x 1.0 x
    1.0).  The lookup finds the member [constructor] that every object
    inherits, which is not a number: the default is not applied and the
    dynamic points are [NaN]. *)
Theorem dynamicPoints_unknown_category_NaN :
  own categoryMultiplier "constructor" = None
  /\ Spec.computeDynamicPoints difficultyMultiplier categoryMultiplier
       100 (Some "easy"%string) (Some "constructor"%string) false 0 1 = 200
  /\ get categoryMultiplier "constructor" = Inherited
  /\ fst (calculateDynamicPoints "c9" (mkClient Scenario.one_team []))
     = Returned NaN.
Proof.
  repeat split; vm_compute; reflexivity.
Qed.

(** ** The fallbacks of the dynamic points *)

(** C6, as it fails: with dynamic scoring switched off in the active
    settings the unsolved 100-point challenge is still worth 384, and for
    a challenge that has no row the result is 0, neither base points nor
    a neutral value. *)
Lemma dynamicPoints_toggle_ignored_missing_row_zero :
  option_map dynamic_scoring (current_settings Scenario.static_scoring)
  = Some (Some false)
  /\ points Scenario.hard_crypto = Some 100
  /\ fst (calculateDynamicPoints "c1" (mkClient Scenario.static_scoring []))
     = Returned (of_Z 384)
  /\ find_challenge Scenario.static_scoring "c0" = None
  /\ fst (calculateDynamicPoints "c0" (mkClient Scenario.static_scoring []))
     = Returned (of_Z 0).
Proof.
  repeat split; vm_compute; reflexivity.
Qed.

(** C6, amended.  [calculateDynamicPoints] never raises.  When no read
    throws, it returns the challenge's points (100 when they are null or
    0) when the count of teams is 0 or unavailable, and 0 when the
    challenge has no row or its read fails.  Its result does not depend
    on the settings table, so not on the dynamic-scoring switch.  On
    every row, for every count of teams and of solves, a null difficulty
    counts as "easy", a null category as "web" and a null daily flag as
    not daily, each of multiplier 1.0; an unavailable solve count, as a
    failed read leaves it, counts as no solve at all. *)
Theorem dynamicPoints_fallbacks :
  (forall (challengeId : string) (c : Client),
      exists n, fst (calculateDynamicPoints challengeId c) = Returned n)
  /\ (forall (d : Database) (fs : list Fault) (challengeId : string) (ch : Challenge),
        find_challenge d challengeId = Some ch ->
        fate 0 fs = Answers -> fate 1 fs <> Throws -> fate 2 fs <> Throws ->
        fate 1 fs = Fails \/ eligible_teams d = 0 ->
        fst (calculateDynamicPoints challengeId (mkClient d fs))
        = Returned (of_Z (or_Z (points ch) 100)))
  /\ (forall (d : Database) (fs : list Fault) (challengeId : string),
        fate 0 fs = Fails
        \/ (fate 0 fs = Answers /\ find_challenge d challengeId = None) ->
        fst (calculateDynamicPoints challengeId (mkClient d fs)) = Returned (of_Z 0))
  /\ (forall (d : Database) (ss : list Settings) (fs : list Fault)
             (challengeId : string),
        fst (calculateDynamicPoints challengeId (mkClient (with_settings d ss) fs))
        = fst (calculateDynamicPoints challengeId (mkClient d fs)))
  /\ (forall (i : string) (p : option Z) (c : option string) (dl : option bool)
             (created : option Z) (totalTeams solveCount : option Z),
        dynamicPointsOf (mkChallenge i p None c dl created) totalTeams solveCount
        = dynamicPointsOf (mkChallenge i p (Some "easy"%string) c dl created)
            totalTeams solveCount)
  /\ (forall (i : string) (p : option Z) (df : option string) (dl : option bool)
             (created : option Z) (totalTeams solveCount : option Z),
        dynamicPointsOf (mkChallenge i p df None dl created) totalTeams solveCount
        = dynamicPointsOf (mkChallenge i p df (Some "web"%string) dl created)
            totalTeams solveCount)
  /\ (forall (i : string) (p : option Z) (df c : option string)
             (created : option Z) (totalTeams solveCount : option Z),
        dynamicPointsOf (mkChallenge i p df c None created) totalTeams solveCount
        = dynamicPointsOf (mkChallenge i p df c (Some false) created)
            totalTeams solveCount)
  /\ (own difficultyMultiplier "easy" = Some 1%Q
      /\ own categoryMultiplier "web" = Some 1%Q
      /\ dailyMultiplier (Some false) = 1%Q)
  /\ (forall (ch : Challenge) (totalTeams : option Z),
        dynamicPointsOf ch totalTeams None = dynamicPointsOf ch totalTeams (Some 0))
  /\ (forall (d : Database) (fs : list Fault) (challengeId : string) (ch : Challenge),
        find_challenge d challengeId = Some ch ->
        fate 0 fs = Answers -> fate 1 fs = Answers -> fate 2 fs = Fails ->
        fst (calculateDynamicPoints challengeId (mkClient d fs))
        = Returned (dynamicPointsOf ch (Some (eligible_teams d)) (Some 0))).
Proof.
  repeat apply conj.
  - intros challengeId c.
    destruct (calculateDynamicPoints_returns challengeId c) as (n & c' & E).
    exists n. now rewrite E.
  - intros d fs challengeId ch Hfind H0 H1 H2 Hteams.
    rewrite calculateDynamicPoints_run, H0, Hfind.
    destruct (fate 1 fs) eqn:E1; try congruence;
      destruct (fate 2 fs) eqn:E2; try congruence;
      destruct Hteams as [Hf | Hz]; try discriminate;
      try (simpl counted; rewrite Hz); reflexivity.
  - intros d fs challengeId [H0 | [H0 Hnone]];
      rewrite calculateDynamicPoints_run, H0; [| rewrite Hnone]; reflexivity.
  - intros d ss fs challengeId. now rewrite !calculateDynamicPoints_run.
  - intros i p c dl created [[| T | T] |] solveCount; reflexivity.
  - intros i p df dl created [[| T | T] |] solveCount; reflexivity.
  - intros i p df c created [[| T | T] |] solveCount; reflexivity.
  - reflexivity.
  - reflexivity.
  - reflexivity.
  - intros ch [[| T | T] |]; reflexivity.
  - intros d fs challengeId ch Hfind H0 H1 H2.
    now rewrite calculateDynamicPoints_run, H0, Hfind, H1, H2.
Qed.

Lemma dynamicPoints_fallbacks_witness :
  fst (calculateDynamicPoints "c1" (mkClient Scenario.fresh [Answers; Fails]))
  = Returned (of_Z 100)
  /\ fst (calculateDynamicPoints "c0" (mkClient Scenario.fresh [])) = Returned (of_Z 0).
Proof.
  destruct dynamicPoints_fallbacks as (_ & Hteams & Hrow & _).
  split.
  - apply (Hteams Scenario.fresh [Answers; Fails] "c1"%string Scenario.hard_crypto);
      try reflexivity; try discriminate.
    left. reflexivity.
  - apply (Hrow Scenario.fresh [] "c0"%string). right. split; reflexivity.
Defined.

(** C7.  The first-blood bonus is configured as 0 and the challenge has
    no solve: the computation is first blood and offers 50, the value
    [first_blood_bonus || 50] takes because 0 is falsy. *)
Theorem firstBlood_zero_bonus_pays_fifty :
  configured_bonus Scenario.no_bonus = Some 0
  /\ solves_of "c1" Scenario.no_bonus = []
  /\ fst (calculateFirstBloodBonus "c1" "red" (mkClient Scenario.no_bonus []))
     = Returned (mkFirstBlood 50 true).
Proof.
  repeat split.
Qed.

(** ** The flag route *)

Import FlagRoute Submission.

(** The tail of the route when every request is answered: the response
    carries the stored points; nothing is awarded when the team already
    has a solve of the challenge; the row is stored unless the table's
    uniqueness constraint rejects it. *)
Lemma select_now {A : Type} (run : Database -> option A) (d : Database) :
  select run (mkClient d []) = (Returned (run d), mkClient d []).
Proof.
  reflexivity.
Qed.

Lemma mutate_now (run : Database -> option Database) (d : Database) :
  mutate run (mkClient d [])
  = (Returned tt, mkClient (match run d with Some d' => d' | None => d end) []).
Proof.
  unfold mutate, next_fault. simpl. destruct (run d); reflexivity.
Qed.

Lemma award_run (user : string) (profile : Profile) (challengeId : string)
    (d : Database) :
  let awarded :=
    match team_solves (team_of user profile) challengeId d with
    | [] => stored_points d challengeId
    | _ :: _ => 0
    end in
  let row := new_row d user profile challengeId in
  exists d',
    award user profile challengeId (mkClient d [])
    = (Returned (Correct (stored_points d challengeId) awarded (message awarded)),
       mkClient d' [])
    /\ solves d' = if rejected d row then solves d else solves d ++ [row].
Proof.
  intros awarded row.
  set (team := team_of user profile) in *.
  assert (Hdone : forall d1 : Database,
             solves d1 = solves d -> solves_unique d1 = solves_unique d ->
             clock d1 = clock d ->
             exists d',
               (existingTeamSolve <- existing_team_solve team challengeId ;;
                inserted <- insert_solve user team challengeId
                              (stored_points d challengeId) ;;
                ret (Correct (stored_points d challengeId)
                       match existingTeamSolve with
                       | Some (_ :: _) => 0
                       | _ => stored_points d challengeId
                       end
                       (message match existingTeamSolve with
                                | Some (_ :: _) => 0
                                | _ => stored_points d challengeId
                                end))) (mkClient d1 [])
               = (Returned (Correct (stored_points d challengeId) awarded
                              (message awarded)), mkClient d' [])
               /\ solves d' = if rejected d row then solves d else solves d ++ [row]).
  { intros d1 Hs Hu Hc. unfold bind, existing_team_solve, insert_solve.
    rewrite select_now, mutate_now. unfold ret, rejected, row, new_row.
    fold team. unfold awarded, team_solves. rewrite Hs, Hu, Hc.
    destruct (filter _ (solves d)) as [| r rest]; cbn [firstn];
      destruct (existsb _ (solves d)); eexists; split; try reflexivity;
      cbn [solves with_solves]; congruence. }
  unfold award, bind at 1 2, challenge_by_id.
  rewrite select_now. fold (stored_points d challengeId).
  unfold team, team_of in *.
  destruct (String.eqb _ "guest").
  - unfold upsert_profile. rewrite mutate_now. apply Hdone; reflexivity.
  - unfold ret at 1. apply Hdone; reflexivity.
Qed.

(** An accepted request reaches the tail of the route. *)
Lemma POST_accepted (d : Database) (req : Request) (user : string)
    (profile : Profile) (response : Response) (c' : Client) :
  accepted d req user profile ->
  award user profile (body_id req) (mkClient d []) = (Returned response, c') ->
  POST req (mkClient d []) = (Returned response, c').
Proof.
  intros (Hrate & Hid & Hflag & Hformat & Hsession & Hprofile & Hname
          & secret & Hsecret & Hcorrect) Haward.
  unfold POST, try_catch.
  rewrite Hrate, Hid, Hflag, Hformat, Hsession. cbn [negb orb].
  unfold bind at 1. rewrite select_now.
  unfold bind at 1, profile_of. rewrite select_now, Hprofile, Hname.
  unfold bind at 1, secret_of. rewrite select_now, Hsecret, Hcorrect.
  now rewrite Haward.
Qed.

Lemma team_solves_row (team challengeId : string) (d : Database) (r : Solve) :
  In r (team_solves team challengeId d) ->
  In r (solves d) /\ team_name r = team /\ challenge_id r = challengeId.
Proof.
  unfold team_solves. intros H. apply filter_In in H as [Hin Hb].
  apply andb_prop in Hb as [Ht Hc].
  apply String.eqb_eq in Ht, Hc. auto.
Qed.

(** C8, as it fails: for the first correct submission of the worked
    example the route awards and stores the 100 stored points, while the
    engine's total for that solve (team of one, 30 minutes after release)
    is 459 before the row is stored and 217 after. *)
Lemma route_award_is_not_engine_total :
  accepted Scenario.fresh (Scenario.submission "alice") "alice"
    (mkProfile "alice" (Some "Alice"%string) (Some "red"%string))
  /\ team_solves "red" "c1" Scenario.fresh = []
  /\ POST (Scenario.submission "alice") (mkClient Scenario.fresh [])
     = (Returned (Correct 100 100 "Correct! Points awarded to your team."),
        mkClient Scenario.solved_by_red [])
  /\ solves Scenario.solved_by_red = [mkSolve "alice" "red" "c1" 100 1800000]
  /\ (exists r,
        fst (calculateTotalScore "c1" "red" 1 (Some 1800000)
               (mkClient Scenario.fresh [])) = Returned r
        /\ totalPoints r = of_Z 459)
  /\ (exists r,
        fst (calculateTotalScore "c1" "red" 1 (Some 1800000)
               (mkClient Scenario.solved_by_red [])) = Returned r
        /\ totalPoints r = of_Z 217)
  /\ 100 <> 459 /\ 100 <> 217.
Proof.
  split.
  { unfold accepted. repeat split; try reflexivity.
    eexists. split; reflexivity. }
  repeat split; try reflexivity; try lia;
    eexists; split; vm_compute; reflexivity.
Qed.

(** C8, amended.  For an accepted submission by a team without a solve
    of the challenge, with every request answered, the route awards the
    points stored in the challenge row (0 when there is none) and stores
    a solve carrying the same points, unless the uniqueness constraint of
    the table rejects the row; the scoring engine is not involved. *)
Theorem route_awards_stored_points (d : Database) (req : Request)
    (user : string) (profile : Profile) :
  accepted d req user profile ->
  team_solves (team_of user profile) (body_id req) d = [] ->
  let points := stored_points d (body_id req) in
  let row := mkSolve user (team_of user profile) (body_id req) points (clock d) in
  exists d',
    POST req (mkClient d [])
    = (Returned (Correct points points (message points)), mkClient d' [])
    /\ solves d' = if rejected d row then solves d else solves d ++ [row].
Proof.
  intros Hacc Hnone points row.
  destruct (award_run user profile (body_id req) d) as (d' & Haward & Hsolves).
  rewrite Hnone in Haward. exists d'. split; [| exact Hsolves].
  exact (POST_accepted _ _ _ _ _ _ Hacc Haward).
Qed.

Lemma route_awards_stored_points_witness :
  exists d',
    POST (Scenario.submission "alice") (mkClient Scenario.fresh [])
    = (Returned (Correct 100 100 (message 100)), mkClient d' [])
    /\ solves d' = [mkSolve "alice" "red" "c1" 100 1800000].
Proof.
  apply (route_awards_stored_points Scenario.fresh (Scenario.submission "alice")
           "alice" (mkProfile "alice" (Some "Alice"%string) (Some "red"%string))).
  - unfold accepted. repeat split; try reflexivity.
    eexists. split; reflexivity.
  - reflexivity.
Defined.

(** C9, as it fails: team red has a stored solve of the challenge and
    the table keeps one solve for a team and a challenge; alice of team
    red submits the flag again, and the read of her team's solves fails:
    the route awards the 100 points once more. *)
Lemma resubmission_awarded_when_read_fails :
  team_solves "red" "c1" Scenario.solved_by_red
  = [mkSolve "alice" "red" "c1" 100 1800000]
  /\ accepted Scenario.solved_by_red (Scenario.submission "alice") "alice"
       (mkProfile "alice" (Some "Alice"%string) (Some "red"%string))
  /\ unique_per_team Scenario.solved_by_red
  /\ fst (POST (Scenario.submission "alice")
             (mkClient Scenario.solved_by_red
                [Answers; Answers; Answers; Answers; Fails]))
     = Returned (Correct 100 100 "Correct! Points awarded to your team.").
Proof.
  split; [reflexivity |]. split; [| split; [| vm_compute; reflexivity]].
  - unfold accepted. repeat split; try reflexivity.
    eexists. split; reflexivity.
  - intros r new Hteam Hchallenge. simpl. unfold Scenario.by_team_and_challenge.
    rewrite Hteam, Hchallenge, !String.eqb_refl. reflexivity.
Qed.

(** C9, amended.  A team that already has a solve of the challenge
    submits the correct flag again.  With every request answered, the
    response still says the flag is correct, nothing is awarded and
    nothing is raised.  Whether a row is added is for the uniqueness
    constraint of the table to decide: the stored solves are unchanged
    when the constraint rejects the new row, as it does when the table
    keeps one solve for a team and a challenge; otherwise the new row is
    appended. *)
Theorem resubmission_awards_nothing (d : Database) (req : Request)
    (user : string) (profile : Profile) :
  accepted d req user profile ->
  team_solves (team_of user profile) (body_id req) d <> [] ->
  exists d',
    POST req (mkClient d [])
    = (Returned (Correct (stored_points d (body_id req)) 0
                   "Correct! You already solved this challenge."),
       mkClient d' [])
    /\ solves d'
       = (if rejected d (new_row d user profile (body_id req)) then solves d
          else solves d ++ [new_row d user profile (body_id req)])
    /\ (unique_per_team d -> solves d' = solves d).
Proof.
  intros Hacc Hsolved.
  destruct (award_run user profile (body_id req) d) as (d' & Haward & Hsolves).
  destruct (team_solves (team_of user profile) (body_id req) d) as [| r rest] eqn:E;
    [congruence |].
  exists d'. split; [exact (POST_accepted _ _ _ _ _ _ Hacc Haward) |].
  split; [exact Hsolves |]. intros Hunique.
  assert (Hin : In r (team_solves (team_of user profile) (body_id req) d))
    by (rewrite E; now left).
  apply team_solves_row in Hin as (Hin & Hteam & Hchallenge).
  assert (Hrej : rejected d (new_row d user profile (body_id req)) = true).
  { unfold rejected. apply existsb_exists. exists r. split; [exact Hin |].
    apply Hunique; [exact Hteam | exact Hchallenge]. }
  now rewrite Hrej in Hsolves.
Qed.

Lemma resubmission_awards_nothing_witness :
  exists d',
    POST (Scenario.submission "alice") (mkClient Scenario.solved_by_red [])
    = (Returned (Correct 100 0 "Correct! You already solved this challenge."),
       mkClient d' [])
    /\ solves d' = [mkSolve "alice" "red" "c1" 100 1800000].
Proof.
  destruct (resubmission_awards_nothing Scenario.solved_by_red
              (Scenario.submission "alice") "alice"
              (mkProfile "alice" (Some "Alice"%string) (Some "red"%string)))
    as (d' & Hrun & _ & Hkept).
  - unfold accepted. repeat split; try reflexivity.
    eexists. split; reflexivity.
  - discriminate.
  - exists d'. split; [exact Hrun |]. apply Hkept.
    intros r new Hteam Hchallenge. simpl. unfold Scenario.by_team_and_challenge.
    rewrite Hteam, Hchallenge, !String.eqb_refl. reflexivity.
Defined.

(** ** First blood *)

Lemma calculateDynamicPoints_now (challengeId : string) (d : Database) :
  exists n,
    calculateDynamicPoints challengeId (mkClient d []) = (Returned n, mkClient d []).
Proof.
  unfold calculateDynamicPoints, try_catch, bind, challenge_by_id, count_teams,
    count_solves.
  rewrite select_now. destruct (find_challenge d challengeId) as [ch |].
  - rewrite !select_now. eexists. reflexivity.
  - eexists. reflexivity.
Qed.

Lemma calculateFirstBloodBonus_now (challengeId teamId : string) (d : Database) :
  calculateFirstBloodBonus challengeId teamId (mkClient d [])
  = (Returned (match solves_of challengeId d with
               | [] => mkFirstBlood (or_Z (configured_bonus d) 50) true
               | _ :: _ => mkFirstBlood 0 false
               end),
     mkClient d []).
Proof.
  unfold calculateFirstBloodBonus, try_catch, bind, first_solve, latest_settings.
  rewrite select_now.
  destruct (earliest_solve d challengeId) as [row |] eqn:E.
  - destruct (solves_of challengeId d) eqn:Es; [| reflexivity].
    apply earliest_solve_none in Es. congruence.
  - apply earliest_solve_none in E. rewrite E, select_now. reflexivity.
Qed.

(** X27.  With every read answered, a scoring computation returns its
    breakdown and leaves the database as it is.  The breakdown is first
    blood exactly when no solve of the challenge is stored at the time
    of the read; its first-blood bonus is then the configured amount (50
    when none is configured or the amount is 0), and 0 otherwise.  The
    computation depends on the team in nothing, so computations for
    different teams that read the same tables give the same flag and the
    same bonus. *)
Theorem firstBlood_follows_the_read
    (d : Database) (challengeId teamId : string) (teamSize : Z)
    (solveTime : DateString) :
  exists r,
    calculateTotalScore challengeId teamId teamSize solveTime (mkClient d [])
    = (Returned r, mkClient d [])
    /\ (isFirstBlood r = true <-> solves_of challengeId d = [])
    /\ (solves_of challengeId d = [] ->
        firstBloodBonus r = of_Z (or_Z (configured_bonus d) 50))
    /\ (solves_of challengeId d <> [] -> firstBloodBonus r = of_Z 0)
    /\ forall teamId',
         fst (calculateTotalScore challengeId teamId' teamSize solveTime
                (mkClient d []))
         = Returned r.
Proof.
  unfold calculateTotalScore, try_catch, bind at 1, challenge_by_id.
  rewrite select_now. unfold bind at 1.
  destruct (calculateDynamicPoints_now challengeId d) as [n Hn]. rewrite Hn.
  unfold bind at 1. rewrite calculateFirstBloodBonus_now. unfold ret.
  eexists. split; [reflexivity |]. cbn [isFirstBlood firstBloodBonus].
  repeat split.
  - destruct (solves_of challengeId d); cbn [fb_isFirstBlood]; congruence.
  - intros ->. reflexivity.
  - intros ->. reflexivity.
  - destruct (solves_of challengeId d); cbn [fb_points]; congruence.
  - intros teamId'. unfold bind at 1. rewrite select_now. unfold bind at 1.
    rewrite Hn. unfold bind at 1. now rewrite calculateFirstBloodBonus_now.
Qed.

Lemma firstBlood_follows_the_read_witness :
  exists r,
    calculateTotalScore "c1" "blue" 1 (Some 3600000)
      (mkClient Scenario.solved_by_red [])
    = (Returned r, mkClient Scenario.solved_by_red [])
    /\ isFirstBlood r = false /\ firstBloodBonus r = of_Z 0.
Proof.
  destruct (firstBlood_follows_the_read Scenario.solved_by_red "c1" "blue" 1
              (Some 3600000)) as (r & Hrun & Hiff & _ & Hbonus & _).
  exists r. split; [exact Hrun |]. split.
  - destruct (isFirstBlood r); [| reflexivity].
    assert (E : solves_of "c1" Scenario.solved_by_red = []) by now apply Hiff.
    discriminate E.
  - apply Hbonus. discriminate.
Defined.

(** The uniqueness constraint decides whether a resubmission is stored:
    were the table to keep one solve for a user and a challenge, as the
    options passed to the insert name it, a team mate of the first solver
    would be awarded nothing and still add a row. *)
Remark team_mate_row_under_user_key :
  let d := mkDatabase [Scenario.hard_crypto] [mkTeam "red"]
             [mkSolve "alice" "red" "c1" 100 1800000] []
             [mkProfile "carol" (Some "Carol"%string) (Some "red"%string)]
             [mkFlag "c1" "editaCTF{x}"] Scenario.by_user_and_challenge 3600000 [] in
  exists d',
    POST (Scenario.submission "carol") (mkClient d [])
    = (Returned (Correct 100 0 "Correct! You already solved this challenge."),
       mkClient d' [])
    /\ solves d' = [mkSolve "alice" "red" "c1" 100 1800000;
                    mkSolve "carol" "red" "c1" 100 3600000].
Proof.
  eexists. split; vm_compute; reflexivity.
Qed.

(** * Further properties of the code *)

(** ** The rate limiter *)

Section Limiter.

Import RateLimiter Limits.

Lemma map_get_set_same (store : Store) (key : string) (entry : RateLimitEntry) :
  map_get (map_set store key entry) key = Some entry.
Proof.
  induction store as [| [k e] rest IH]; simpl.
  - now rewrite String.eqb_refl.
  - destruct (String.eqb key k) eqn:E; simpl; rewrite E; [reflexivity | exact IH].
Qed.

Lemma map_get_set_other (store : Store) (key key' : string) (entry : RateLimitEntry) :
  key' <> key -> map_get (map_set store key entry) key' = map_get store key'.
Proof.
  intros Hne. induction store as [| [k e] rest IH]; simpl.
  - destruct (String.eqb_spec key' key); [contradiction | reflexivity].
  - destruct (String.eqb_spec key k) as [-> | Hk]; simpl.
    + destruct (String.eqb_spec key' k); [contradiction | reflexivity].
    + destruct (String.eqb key' k); [reflexivity | exact IH].
Qed.

(** The verdict and the entry written depend on the store only through
    the caller's own entry. *)
Lemma checkRateLimit_local (identifier endpointType : string) (now : Z)
    (s1 s2 : Store) :
  map_get s1 (key_for identifier endpointType)
  = map_get s2 (key_for identifier endpointType) ->
  fst (checkRateLimit identifier endpointType now s1)
  = fst (checkRateLimit identifier endpointType now s2)
  /\ map_get (snd (checkRateLimit identifier endpointType now s1))
       (key_for identifier endpointType)
     = map_get (snd (checkRateLimit identifier endpointType now s2))
         (key_for identifier endpointType).
Proof.
  intros H. unfold checkRateLimit. rewrite <- H.
  destruct (map_get s1 (key_for identifier endpointType)) as [e |] eqn:E.
  - destruct (blocking e now); [simpl; split; [reflexivity | congruence] |].
    destruct (after now (resetTime e));
      [simpl; now rewrite !map_get_set_same |].
    destruct (reached (count e) (maxRequests (config_of endpointType)));
      [destruct (nonzero (blockDurationMs (config_of endpointType))) |];
      simpl; rewrite ?map_get_set_same; split; congruence.
  - simpl. now rewrite !map_get_set_same.
Qed.

(** A call touches no entry but the caller's. *)
Lemma checkRateLimit_frame (identifier endpointType : string) (now : Z)
    (store : Store) (key' : string) :
  key' <> key_for identifier endpointType ->
  map_get (snd (checkRateLimit identifier endpointType now store)) key'
  = map_get store key'.
Proof.
  intros Hne. unfold checkRateLimit.
  destruct (map_get store (key_for identifier endpointType)) as [e |];
    [destruct (blocking e now); [reflexivity |];
     destruct (after now (resetTime e));
       [| destruct (reached (count e) (maxRequests (config_of endpointType)));
          [destruct (nonzero (blockDurationMs (config_of endpointType))) |]] |];
    simpl; try reflexivity; now apply map_get_set_other.
Qed.

Section Quota.

Variables (identifier endpointType : string) (window quota : Z).
Hypothesis window_configured : windowMs (config_of endpointType) = Some window.
Hypothesis quota_configured : maxRequests (config_of endpointType) = Some quota.
Hypothesis quota_positive : 1 <= quota.

Lemma idle_opens (opened : Z) (store : Store) :
  idle identifier endpointType opened store = true ->
  allowed (fst (checkRateLimit identifier endpointType opened store)) = true
  /\ in_window identifier endpointType opened window quota 1
       (snd (checkRateLimit identifier endpointType opened store)).
Proof.
  unfold idle, checkRateLimit, in_window. intros Hidle.
  rewrite window_configured, quota_configured.
  destruct (map_get store (key_for identifier endpointType)) as [e |].
  - apply andb_prop in Hidle as [Hb Ha]. apply negb_true_iff in Hb.
    rewrite Hb, Ha. simpl. split; [reflexivity |].
    rewrite map_get_set_same. eexists. repeat split; simpl; try lia; discriminate.
  - simpl. split; [reflexivity |].
    rewrite map_get_set_same. eexists. repeat split; simpl; try lia; discriminate.
Qed.

Lemma in_window_step (opened i now : Z) (store : Store) :
  in_window identifier endpointType opened window quota i store ->
  now <= opened + window ->
  allowed (fst (checkRateLimit identifier endpointType now store)) = (i <? quota)
  /\ in_window identifier endpointType opened window quota (i + 1)
       (snd (checkRateLimit identifier endpointType now store)).
Proof.
  intros (e & Hget & Hreset & Hcount & Hblocked) Hnow.
  unfold checkRateLimit, in_window. rewrite Hget, quota_configured.
  destruct (blocking e now) eqn:Hb.
  - unfold blocking in Hb. apply andb_prop in Hb as [Hb _].
    apply andb_prop in Hb as [Hb _]. specialize (Hblocked Hb). simpl.
    split; [symmetry; apply Z.ltb_ge; lia |].
    exists e. repeat split; try assumption; lia.
  - assert (Hafter : after now (resetTime e) = false).
    { rewrite Hreset. simpl. apply Z.ltb_ge. lia. }
    rewrite Hafter. unfold reached. rewrite Hcount.
    destruct (Z.leb_spec quota (Z.min i quota)) as [Hfull | Hroom].
    + assert (Hi : quota <= i) by lia.
      destruct (nonzero (blockDurationMs (config_of endpointType))); simpl;
        (split; [symmetry; apply Z.ltb_ge; lia |]).
      * rewrite map_get_set_same. eexists. repeat split; simpl; try assumption; lia.
      * exists e. repeat split; try assumption; lia.
    + simpl. split; [symmetry; apply Z.ltb_lt; lia |].
      rewrite map_get_set_same. eexists. repeat split; simpl; try assumption; try lia.
      intros Hb'. specialize (Hblocked Hb'). lia.
Qed.

Lemma in_window_calls (opened : Z) (later : list Z) :
  Forall (fun now => now <= opened + window) later ->
  forall (k : nat) (store : Store),
    in_window identifier endpointType opened window quota (Z.of_nat k) store ->
    map allowed (fst (calls identifier endpointType later store))
    = map (fun i => Z.of_nat i <? quota) (seq k (List.length later)).
Proof.
  induction 1 as [| now later Hnow _ IH]; intros k store Hin; [reflexivity |].
  simpl.
  destruct (in_window_step opened (Z.of_nat k) now store Hin Hnow) as [Hverdict Hnext].
  destruct (checkRateLimit identifier endpointType now store) as [r store1].
  simpl in Hverdict, Hnext.
  replace (Z.of_nat k + 1) with (Z.of_nat (S k)) in Hnext by lia.
  specialize (IH (S k) store1 Hnext).
  destruct (calls identifier endpointType later store1) as [rs store2].
  simpl in *. now rewrite Hverdict, IH.
Qed.

Lemma calls_within_window (opened : Z) (later : list Z) (store : Store) :
  idle identifier endpointType opened store = true ->
  Forall (fun now => now <= opened + window) later ->
  map allowed (fst (calls identifier endpointType (opened :: later) store))
  = first_allowed quota (S (List.length later)).
Proof.
  intros Hidle Hlater. simpl.
  destruct (idle_opens opened store Hidle) as [Hfirst Hin].
  destruct (checkRateLimit identifier endpointType opened store) as [r store1].
  simpl in Hfirst, Hin.
  pose proof (in_window_calls opened later Hlater 1%nat store1 Hin) as Hrest.
  destruct (calls identifier endpointType later store1) as [rs store2].
  simpl in *. unfold first_allowed. simpl. rewrite Hfirst, Hrest.
  f_equal. symmetry. apply Z.ltb_lt. lia.
Qed.

(** X1.  A caller without a running window or block calls at [opened]
    and then at the times [later], none after the end of the window
    that the first call opens: exactly the first [maxRequests] calls are
    allowed and every further one is refused. *)
Theorem quota_per_window (opened : Z) (later : list Z) (store : Store) :
  idle identifier endpointType opened store = true ->
  Forall (fun now => now <= opened + window) later ->
  map allowed (fst (calls identifier endpointType (opened :: later) store))
  = first_allowed quota (S (List.length later)).
Proof.
  exact (calls_within_window opened later store).
Qed.

End Quota.

Lemma quota_per_window_witness :
  map allowed
    (fst (calls "10.0.0.7" "flag_submission"
            [1000; 2000; 3000; 4000; 5000; 6000; 61000] []))
  = [true; true; true; true; true; false; false].
Proof.
  apply (quota_per_window "10.0.0.7" "flag_submission" 60000 5
           eq_refl eq_refl ltac:(lia) 1000 [2000; 3000; 4000; 5000; 6000; 61000] []).
  - reflexivity.
  - repeat constructor; lia.
Defined.

(** X2.  On an endpoint with a block duration, a refused caller is
    locked out: there is a time [until] after [now], equal to
    [now + blockDurationMs] when the caller was not blocked before, such
    that every call before [until] is refused as blocked, with nothing
    remaining, and leaves the store as it is, even when the counting
    window ends in between. *)
Theorem refusal_blocks (identifier endpointType : string) (now duration : Z)
    (store : Store) :
  blockDurationMs (config_of endpointType) = Some duration ->
  0 < duration -> 0 <= now ->
  allowed (fst (checkRateLimit identifier endpointType now store)) = false ->
  let store' := snd (checkRateLimit identifier endpointType now store) in
  exists until,
    now < until
    /\ (isBlocked identifier endpointType now store = false -> until = now + duration)
    /\ forall t, t < until ->
         checkRateLimit identifier endpointType t store'
         = (mkResult false (Some 0) (Some until) (Some true), store').
Proof.
  intros Hcfg Hpos Hnow. unfold checkRateLimit, isBlocked. rewrite Hcfg.
  destruct (map_get store (key_for identifier endpointType)) as [e |] eqn:Hget;
    [| discriminate].
  destruct (blocking e now) eqn:Hb.
  - intros _. cbn [snd]. unfold blocking in Hb.
    apply andb_prop in Hb as [Hb Hbefore]. apply andb_prop in Hb as [Htrue Hnz].
    destruct (blockUntil e) as [u |] eqn:Hu; [| discriminate].
    exists u. simpl in Hbefore. apply Z.ltb_lt in Hbefore.
    split; [exact Hbefore |]. split; [discriminate |].
    intros t Ht. rewrite Hget. unfold blocking. rewrite Htrue, Hu, Hnz. simpl.
    now rewrite (proj2 (Z.ltb_lt t u) Ht).
  - destruct (after now (resetTime e)); [discriminate |].
    destruct (reached (count e) (maxRequests (config_of endpointType)));
      [| discriminate].
    assert (Hnz : nonzero (Some duration) = true)
      by (simpl; apply negb_true_iff, Z.eqb_neq; lia).
    rewrite Hnz. intros _. cbn [snd]. exists (now + duration).
    split; [lia |]. split; [reflexivity |].
    intros t Ht. rewrite map_get_set_same. unfold blocking. cbn.
    assert (Hnz' : (now + duration =? 0) = false) by (apply Z.eqb_neq; lia).
    now rewrite Hnz', (proj2 (Z.ltb_lt t (now + duration)) Ht).
Qed.

Lemma refusal_blocks_witness :
  let store' :=
    snd (calls "10.0.0.7" "flag_submission" [1000; 2000; 3000; 4000; 5000; 6000] []) in
  checkRateLimit "10.0.0.7" "flag_submission" 66000 store'
  = (mkResult false (Some 0) (Some 306000) (Some true), store').
Proof.
  destruct (refusal_blocks "10.0.0.7" "flag_submission" 6000 300000
              (snd (calls "10.0.0.7" "flag_submission" [1000; 2000; 3000; 4000; 5000] []))
              eq_refl ltac:(lia) ltac:(lia) eq_refl) as (until & _ & Huntil & Hlocked).
  rewrite (Huntil eq_refl) in Hlocked. apply (Hlocked 66000). lia.
Defined.

(** X3.  For a caller that is not blocked, [getRemainingRequests] and
    [checkRateLimit] agree: the call is allowed exactly when something
    remains, and an allowed call reports, and leaves behind, one less. *)
Theorem remaining_agrees (identifier endpointType : string) (now window quota : Z)
    (store : Store) :
  windowMs (config_of endpointType) = Some window -> 0 <= window ->
  maxRequests (config_of endpointType) = Some quota -> 1 <= quota ->
  isBlocked identifier endpointType now store = false ->
  let result := fst (checkRateLimit identifier endpointType now store) in
  let store' := snd (checkRateLimit identifier endpointType now store) in
  exists left,
    getRemainingRequests identifier endpointType now store = Some left
    /\ 0 <= left
    /\ allowed result = (0 <? left)
    /\ (allowed result = true ->
        remaining result = Some (left - 1)
        /\ getRemainingRequests identifier endpointType now store' = Some (left - 1)).
Proof.
  intros Hw Hw0 Hq Hq1. unfold isBlocked, checkRateLimit, getRemainingRequests.
  rewrite Hw, Hq.
  destruct (map_get store (key_for identifier endpointType)) as [e |] eqn:Hget.
  - intros Hb. rewrite Hb.
    destruct (after now (resetTime e)) eqn:Ha.
    + exists quota. cbn [fst snd allowed remaining minus].
      rewrite map_get_set_same. cbn [resetTime count plus after].
      rewrite (proj2 (Z.ltb_ge (now + window) now)) by lia.
      repeat split; try lia; try (symmetry; apply Z.ltb_lt; lia).
      f_equal. lia.
    + unfold reached. destruct (Z.leb_spec quota (count e)) as [Hfull | Hroom].
      * exists 0. replace (Z.max 0 (quota - count e)) with 0 by lia.
        destruct (nonzero (blockDurationMs (config_of endpointType)));
          cbn [fst snd allowed]; repeat split; try lia; discriminate.
      * exists (quota - count e). cbn [fst snd allowed remaining].
        rewrite map_get_set_same. cbn [resetTime count]. rewrite Ha.
        repeat split; try lia; try (symmetry; apply Z.ltb_lt; lia);
          f_equal; lia.
  - intros _. exists quota. cbn [fst snd allowed remaining minus].
    rewrite map_get_set_same. cbn [resetTime count plus after].
    rewrite (proj2 (Z.ltb_ge (now + window) now)) by lia.
    repeat split; try lia; try (symmetry; apply Z.ltb_lt; lia).
    f_equal. lia.
Qed.

Lemma remaining_agrees_witness :
  exists left,
    getRemainingRequests "10.0.0.7" "flag_submission" 1000 [] = Some left
    /\ 0 <= left
    /\ allowed (fst (checkRateLimit "10.0.0.7" "flag_submission" 1000 [])) = (0 <? left)
    /\ (allowed (fst (checkRateLimit "10.0.0.7" "flag_submission" 1000 [])) = true ->
        remaining (fst (checkRateLimit "10.0.0.7" "flag_submission" 1000 []))
        = Some (left - 1)
        /\ getRemainingRequests "10.0.0.7" "flag_submission" 1000
             (snd (checkRateLimit "10.0.0.7" "flag_submission" 1000 []))
           = Some (left - 1)).
Proof.
  apply (remaining_agrees "10.0.0.7" "flag_submission" 1000 60000 5 []);
    try reflexivity; lia.
Defined.

(** X4.  While a caller is blocked, [checkRateLimit] refuses the call and
    changes nothing; yet once the counting window is over,
    [getRemainingRequests] reports the whole quota for that caller. *)
Theorem blocked_yet_quota_reported (identifier endpointType : string) (now : Z)
    (store : Store) :
  isBlocked identifier endpointType now store = true ->
  exists entry until,
    map_get store (key_for identifier endpointType) = Some entry
    /\ blockUntil entry = Some until /\ now < until
    /\ checkRateLimit identifier endpointType now store
       = (mkResult false (Some 0) (Some until) (Some true), store)
    /\ (after now (resetTime entry) = true ->
        getRemainingRequests identifier endpointType now store
        = maxRequests (config_of endpointType)).
Proof.
  unfold isBlocked, checkRateLimit, getRemainingRequests.
  destruct (map_get store (key_for identifier endpointType)) as [e |];
    [| discriminate].
  intros Hb. rewrite Hb. unfold blocking in Hb.
  apply andb_prop in Hb as [Hb Hbefore]. apply andb_prop in Hb as [_ Hnz].
  destruct (blockUntil e) as [u |] eqn:Hu; [| discriminate].
  exists e, u. simpl in Hbefore. apply Z.ltb_lt in Hbefore.
  repeat split; try assumption. intros Ha. now rewrite Ha.
Qed.

Lemma blocked_yet_quota_reported_witness :
  let store :=
    snd (calls "10.0.0.7" "flag_submission" [1000; 2000; 3000; 4000; 5000; 6000] []) in
  fst (checkRateLimit "10.0.0.7" "flag_submission" 100000 store)
  = mkResult false (Some 0) (Some 306000) (Some true)
  /\ getRemainingRequests "10.0.0.7" "flag_submission" 100000 store = Some 5.
Proof.
  destruct (blocked_yet_quota_reported "10.0.0.7" "flag_submission" 100000
              (snd (calls "10.0.0.7" "flag_submission"
                      [1000; 2000; 3000; 4000; 5000; 6000] [])) eq_refl)
    as (entry & until & Hget & Huntil & _ & Hcheck & Hquota).
  vm_compute in Hget. injection Hget as <-.
  vm_compute in Huntil. injection Huntil as <-.
  split; [now rewrite Hcheck | exact (Hquota eq_refl)].
Defined.

Lemma map_get_absent (store : Store) (key : string) :
  ~ In key (map fst store) -> map_get store key = None.
Proof.
  induction store as [| [k e] rest IH]; simpl; [reflexivity |].
  intros Hnot. destruct (String.eqb_spec key k) as [-> | Hne]; [tauto |].
  apply IH. tauto.
Qed.

Lemma cleanup_keys (now : Z) (store : Store) (key : string) :
  In key (map fst (cleanupRateLimitEntries now store)) -> In key (map fst store).
Proof.
  unfold cleanupRateLimitEntries. rewrite !in_map_iff.
  intros ([k e] & Hk & Hin). apply filter_In in Hin as [Hin _].
  exists (k, e). auto.
Qed.

(** After the clean-up a key has its entry unless the entry was stale. *)
Lemma map_get_cleanup (now : Z) (store : Store) (key : string) :
  well_formed store ->
  map_get (cleanupRateLimitEntries now store) key
  = match map_get store key with
    | Some entry => if stale now entry then None else Some entry
    | None => None
    end.
Proof.
  unfold well_formed. induction store as [| [k e] rest IH]; simpl; [reflexivity |].
  intros Hnodup. inversion Hnodup as [| ? ? Hnot Hrest]; subst.
  destruct (String.eqb_spec key k) as [-> | Hne].
  - destruct (stale now e); simpl.
    + apply map_get_absent. intros Hin. apply Hnot. exact (cleanup_keys _ _ _ Hin).
    + now rewrite String.eqb_refl.
  - destruct (stale now e); simpl.
    + now apply IH.
    + destruct (String.eqb_spec key k); [contradiction | now apply IH].
Qed.

(** A stale entry stays without effect at every later time. *)
Lemma stale_later (cleaned now : Z) (entry : RateLimitEntry) :
  stale cleaned entry = true -> cleaned <= now ->
  blocking entry now = false /\ after now (resetTime entry) = true.
Proof.
  unfold stale, blocking. intros Hstale Hle.
  apply andb_prop in Hstale as [Hafter Hblock]. split.
  - apply orb_prop in Hblock as [Hfree | Hover].
    + apply negb_true_iff in Hfree. now rewrite Hfree.
    + apply andb_prop in Hover as [_ Hover].
      destruct (blockUntil entry) as [u |]; [| discriminate]. simpl in *.
      apply Z.ltb_lt in Hover.
      rewrite (proj2 (Z.ltb_ge now u)) by lia.
      now rewrite !andb_false_r.
  - destruct (resetTime entry) as [r |]; [| discriminate]. simpl in *.
    apply Z.ltb_lt in Hafter. apply Z.ltb_lt. lia.
Qed.

(** X5.  The periodic clean-up is not noticed by callers: at any time
    not before the clean-up, [checkRateLimit], [getRemainingRequests] and
    [isBlocked] answer every caller as they would have without it. *)
Theorem cleanup_unnoticed (identifier endpointType : string) (cleaned now : Z)
    (store : Store) :
  well_formed store -> cleaned <= now ->
  let store' := cleanupRateLimitEntries cleaned store in
  fst (checkRateLimit identifier endpointType now store')
  = fst (checkRateLimit identifier endpointType now store)
  /\ getRemainingRequests identifier endpointType now store'
     = getRemainingRequests identifier endpointType now store
  /\ isBlocked identifier endpointType now store'
     = isBlocked identifier endpointType now store.
Proof.
  intros Hwf Hle store'.
  pose proof (map_get_cleanup cleaned store (key_for identifier endpointType) Hwf)
    as Hget.
  fold store' in Hget.
  destruct (map_get store (key_for identifier endpointType)) as [e |] eqn:Hstore.
  - destruct (stale cleaned e) eqn:Hstale.
    + destruct (stale_later cleaned now e Hstale Hle) as [Hb Ha].
      unfold checkRateLimit, getRemainingRequests, isBlocked.
      rewrite Hget, Hstore, Hb, Ha. repeat split; reflexivity.
    + rewrite <- Hstore in Hget. split; [now apply checkRateLimit_local |].
      unfold getRemainingRequests, isBlocked. now rewrite Hget.
  - rewrite <- Hstore in Hget. split; [now apply checkRateLimit_local |].
    unfold getRemainingRequests, isBlocked. now rewrite Hget.
Qed.

Lemma cleanup_unnoticed_witness :
  let store :=
    snd (calls "10.0.0.7" "team_operations" [1000; 2000] []) in
  fst (checkRateLimit "10.0.0.7" "team_operations" 70000
         (cleanupRateLimitEntries 65000 store))
  = fst (checkRateLimit "10.0.0.7" "team_operations" 70000 store).
Proof.
  apply (cleanup_unnoticed "10.0.0.7" "team_operations" 65000 70000
           (snd (calls "10.0.0.7" "team_operations" [1000; 2000] []))).
  - unfold well_formed. simpl. repeat constructor. simpl. tauto.
  - lia.
Defined.

Lemma key_for_injective (identifier identifier' endpointType endpointType' : string) :
  colon_free endpointType = true -> colon_free endpointType' = true ->
  key_for identifier endpointType = key_for identifier' endpointType' ->
  endpointType = endpointType' /\ identifier = identifier'.
Proof.
  unfold key_for. revert endpointType'.
  induction endpointType as [| c rest IH]; intros [| c' rest']; simpl;
    intros Hfree Hfree' Heq.
  - injection Heq as ->. auto.
  - injection Heq as <- _. simpl in Hfree'. discriminate.
  - injection Heq as -> _. simpl in Hfree. discriminate.
  - injection Heq as -> Heq.
    apply andb_prop in Hfree as [_ Hfree]. apply andb_prop in Hfree' as [_ Hfree'].
    destruct (IH rest' Hfree Hfree' Heq) as [-> ->]. auto.
Qed.

(** X6.  Callers do not share a quota: for endpoint types written
    without a colon, a call by one caller changes no verdict, remaining
    count or block of a caller that differs in identifier or endpoint
    type. *)
Theorem callers_independent
    (identifier identifier' endpointType endpointType' : string)
    (now now' : Z) (store : Store) :
  colon_free endpointType = true -> colon_free endpointType' = true ->
  (identifier, endpointType) <> (identifier', endpointType') ->
  let store' := snd (checkRateLimit identifier endpointType now store) in
  fst (checkRateLimit identifier' endpointType' now' store')
  = fst (checkRateLimit identifier' endpointType' now' store)
  /\ getRemainingRequests identifier' endpointType' now' store'
     = getRemainingRequests identifier' endpointType' now' store
  /\ isBlocked identifier' endpointType' now' store'
     = isBlocked identifier' endpointType' now' store.
Proof.
  intros Hfree Hfree' Hne store'.
  assert (Hget : map_get store' (key_for identifier' endpointType')
                 = map_get store (key_for identifier' endpointType')).
  { apply checkRateLimit_frame. intros Heq.
    destruct (key_for_injective _ _ _ _ Hfree' Hfree Heq) as [-> ->].
    now apply Hne. }
  split; [now apply checkRateLimit_local |].
  unfold getRemainingRequests, isBlocked. now rewrite Hget.
Qed.

Lemma callers_independent_witness :
  let store' := snd (checkRateLimit "10.0.0.7" "flag_submission" 1000 []) in
  fst (checkRateLimit "10.0.0.7" "auth_login" 2000 store')
  = fst (checkRateLimit "10.0.0.7" "auth_login" 2000 []).
Proof.
  apply (callers_independent "10.0.0.7" "10.0.0.7" "flag_submission" "auth_login"
           1000 2000 []); try reflexivity.
  discriminate.
Defined.

(** The operations keep one entry for a key. *)
Lemma map_set_keys (store : Store) (key : string) (entry : RateLimitEntry) :
  map fst (map_set store key entry)
  = if existsb (String.eqb key) (map fst store) then map fst store
    else map fst store ++ [key].
Proof.
  induction store as [| [k e] rest IH]; simpl; [reflexivity |].
  destruct (String.eqb_spec key k) as [-> | Hne]; simpl; [reflexivity |].
  rewrite IH. now destruct (existsb (String.eqb key) (map fst rest)).
Qed.

Lemma well_formed_set (store : Store) (key : string) (entry : RateLimitEntry) :
  well_formed store -> well_formed (map_set store key entry).
Proof.
  unfold well_formed. intros Hwf. rewrite map_set_keys.
  destruct (existsb (String.eqb key) (map fst store)) eqn:E; [exact Hwf |].
  apply NoDup_app; [exact Hwf | repeat constructor; simpl; tauto |].
  intros k Hin [Heq | []]. subst k.
  assert (Hex : existsb (String.eqb key) (map fst store) = true).
  { apply existsb_exists. exists key. split; [exact Hin | apply String.eqb_refl]. }
  congruence.
Qed.

Lemma well_formed_kept (identifier endpointType : string) (now : Z) (store : Store) :
  well_formed store ->
  well_formed (snd (checkRateLimit identifier endpointType now store))
  /\ well_formed (cleanupRateLimitEntries now store).
Proof.
  intros Hwf. split.
  - unfold checkRateLimit.
    destruct (map_get store (key_for identifier endpointType)) as [e |];
      [destruct (blocking e now); [exact Hwf |];
       destruct (after now (resetTime e));
         [| destruct (reached (count e) (maxRequests (config_of endpointType)));
            [destruct (nonzero (blockDurationMs (config_of endpointType))) |]] |];
      simpl; try exact Hwf; now apply well_formed_set.
  - unfold well_formed, cleanupRateLimitEntries in *.
    induction store as [| [k e] rest IH]; simpl; [constructor |].
    inversion Hwf as [| ? ? Hnot Hrest]; subst.
    destruct (stale now e); simpl; [now apply IH |].
    constructor; [| now apply IH].
    intros Hin. apply Hnot. exact (cleanup_keys now rest k Hin).
Qed.

End Limiter.
(** ** The flag route behind its rate limiter *)

Section Endpoint.

Import RateLimiter Limits FlagEndpoint.

(** The handler answers 429 only on the limiter's verdict. *)
Lemma POST_limited (req : Request) (c : Client) :
  limited (fst (POST req c)) = negb (rate_allowed req)
  /\ (rate_allowed req = false -> snd (POST req c) = c).
Proof.
  unfold POST, try_catch. destruct (rate_allowed req); cbn [negb].
  - split; [| discriminate].
    destruct (_ || _)%bool; [reflexivity |].
    destruct (format_ok req); [| reflexivity]. cbn [negb].
    destruct (session req) as [| | user]; [reflexivity | |].
    + unfold bind, select, next_fault, ret.
      destruct (hd Answers (faults c)); reflexivity.
    + unfold bind at 1, select at 1, next_fault.
      destruct (hd Answers (faults c)); try reflexivity.
      unfold bind at 1, profile_of, select at 1, next_fault. cbn [faults database].
      destruct (hd Answers (tl (faults c))); try reflexivity.
      * destruct (single _) as [profile |]; [| reflexivity].
        destruct (truthy (display_name profile)); [| reflexivity].
        unfold bind at 1, secret_of, select at 1, next_fault. cbn [faults database].
        destruct (hd Answers (tl (tl (faults c)))); try reflexivity.
        destruct (single _) as [secret |]; [| reflexivity].
        destruct (String.eqb (flag secret) (body_flag req)).
        -- unfold award. 
           repeat match goal with
                  | |- context [bind ?m ?k ?c] =>
                      unfold bind at 1;
                      let o := fresh "o" in
                      destruct (m c) as [[o |] ?]; try reflexivity
                  end.
        -- unfold bind, try_catch, log_failed_attempt, mutate, next_fault, ret.
           cbn [faults database]. destruct (hd Answers _); reflexivity.
  - split; [reflexivity | reflexivity].
Qed.

Lemma receive_limiter (a : Arrival) (store : Store) (c : Client) :
  let check := checkRateLimit (address a) "flag_submission" (arrived a) store in
  limited (fst (fst (receive a store c))) = negb (allowed (fst check))
  /\ snd (receive a store c) = snd check
  /\ (allowed (fst check) = false -> snd (fst (receive a store c)) = c).
Proof.
  unfold receive.
  destruct (checkRateLimit (address a) "flag_submission" (arrived a) store)
    as [result store'].
  cbn [fst snd].
  match goal with
  | |- context [POST ?req c] =>
      destruct (POST_limited req c) as [Hverdict Hsame]
  end.
  cbn [rate_allowed] in Hverdict, Hsame. auto.
Qed.

(** The verdicts of the route are those of the limiter for the arrival
    times, when every arrival comes from the same address. *)
Lemma receive_all_calls (ip : string) (arrivals : list Arrival) :
  Forall (fun a => address a = ip) arrivals ->
  forall (store : Store) (c : Client),
    map limited (fst (fst (receive_all arrivals store c)))
    = map (fun r => negb (allowed r))
        (fst (calls ip "flag_submission" (map arrived arrivals) store)).
Proof.
  induction 1 as [| a later Haddr _ IH]; intros store c; [reflexivity |].
  cbn [receive_all calls map].
  destruct (receive_limiter a store c) as (Hverdict & Hstore & _).
  rewrite Haddr in Hverdict, Hstore.
  destruct (receive a store c) as [[response c1] store1].
  cbn [fst snd] in Hverdict, Hstore. subst store1.
  specialize (IH (snd (checkRateLimit ip "flag_submission" (arrived a) store)) c1).
  destruct (checkRateLimit ip "flag_submission" (arrived a) store) as [r store1].
  cbn [fst snd] in *.
  destruct (receive_all later store1 c1) as [[responses c2] store2].
  destruct (calls ip "flag_submission" (map arrived later) store1) as [rs store3].
  cbn [fst snd map] in *. now rewrite Hverdict, IH.
Qed.

(** X7.  Flag submissions from one address, the first of which opens a
    counting window and the others arrive within its minute: the first
    five reach the handler, and from the sixth on each is answered 429,
    whatever it carries. *)
Theorem sixth_submission_refused (ip : string) (first : Arrival)
    (later : list Arrival) (store : Store) (c : Client) :
  Forall (fun a => address a = ip) (first :: later) ->
  idle ip "flag_submission" (arrived first) store = true ->
  Forall (fun a => arrived a <= arrived first + 60000) later ->
  map limited (fst (fst (receive_all (first :: later) store c)))
  = map negb (first_allowed 5 (S (List.length later))).
Proof.
  intros Hfrom Hidle Hwithin.
  rewrite (receive_all_calls ip (first :: later) Hfrom store c).
  cbn [map].
  rewrite <- (map_map allowed negb). f_equal.
  rewrite <- (length_map arrived later).
  apply (calls_within_window ip "flag_submission" 60000 5 eq_refl eq_refl
           ltac:(lia) (arrived first) (map arrived later) store Hidle).
  apply Forall_map. exact Hwithin.
Qed.

Lemma sixth_submission_refused_witness :
  let a t := mkArrival (Some "10.0.0.7, 172.16.0.1"%string) None t
               (Scenario.submission "alice") in
  map limited
    (fst (fst (receive_all [a 1000; a 2000; a 3000; a 4000; a 5000; a 6000]
                 [] (mkClient Scenario.fresh []))))
  = [false; false; false; false; false; true].
Proof.
  intros a.
  apply (sixth_submission_refused "10.0.0.7" (a 1000)
           [a 2000; a 3000; a 4000; a 5000; a 6000] [] (mkClient Scenario.fresh [])).
  - repeat constructor.
  - reflexivity.
  - repeat constructor; simpl; lia.
Defined.

Lemma append_cancel (prefix s s' : string) :
  (prefix ++ s)%string = (prefix ++ s')%string -> s = s'.
Proof.
  induction prefix as [| c rest IH]; simpl; [auto |].
  intros H. injection H as H. auto.
Qed.

Lemma key_for_identifier (endpointType identifier identifier' : string) :
  key_for identifier endpointType = key_for identifier' endpointType ->
  identifier = identifier'.
Proof.
  unfold key_for. intros H. apply append_cancel in H. now apply append_cancel in H.
Qed.

Lemma receive_all_fresh (arrivals : list Arrival) :
  NoDup (map address arrivals) ->
  forall (store : Store) (c : Client),
    (forall a, In a arrivals ->
       map_get store (key_for (address a) "flag_submission") = None) ->
    Forall (fun response => limited response = false)
      (fst (fst (receive_all arrivals store c))).
Proof.
  induction arrivals as [| a later IH]; intros Hnodup store c Habsent;
    [constructor |].
  cbn [receive_all]. cbn [map] in Hnodup.
  inversion Hnodup as [| ? ? Hnew Hrest]; subst.
  destruct (receive_limiter a store c) as (Hverdict & Hstore & _).
  assert (Hcheck : allowed (fst (checkRateLimit (address a) "flag_submission"
                                   (arrived a) store)) = true
                   /\ forall b, In b later ->
                        map_get (snd (checkRateLimit (address a) "flag_submission"
                                        (arrived a) store))
                          (key_for (address b) "flag_submission") = None).
  { split.
    - unfold checkRateLimit. now rewrite (Habsent a (or_introl eq_refl)).
    - intros b Hb. rewrite checkRateLimit_frame; [apply Habsent; now right |].
      intros Heq. apply key_for_identifier in Heq.
      apply Hnew. rewrite <- Heq. now apply in_map. }
  destruct Hcheck as [Hallowed Hlater]. rewrite Hallowed in Hverdict.
  destruct (receive a store c) as [[response c1] store1].
  cbn [fst snd] in Hverdict, Hstore. subst store1.
  specialize (IH Hrest _ c1 Hlater).
  destruct (receive_all later _ c1) as [[responses c2] store2].
  cbn [fst snd] in *. constructor; assumption.
Qed.

(** X8.  The limiter knows a client by the first entry of its
    [x-forwarded-for] header: arrivals whose addresses are pairwise
    different, none of them known to the store, are never answered 429,
    however many they are and however fast they come. *)
Theorem fresh_addresses_never_limited (arrivals : list Arrival) (store : Store)
    (c : Client) :
  NoDup (map address arrivals) ->
  (forall a, In a arrivals ->
     map_get store (key_for (address a) "flag_submission") = None) ->
  Forall (fun response => limited response = false)
    (fst (fst (receive_all arrivals store c))).
Proof.
  intros Hnodup Habsent. exact (receive_all_fresh arrivals Hnodup store c Habsent).
Qed.

Lemma fresh_addresses_never_limited_witness :
  let a ip := mkArrival (Some ip) (Some "10.0.0.7"%string) 1000
                (Scenario.submission "alice") in
  Forall (fun response => limited response = false)
    (fst (fst (receive_all [a "1"; a "2"; a "3"; a "4"; a "5"; a "6"; a "7"]%string
                 [] (mkClient Scenario.fresh [])))).
Proof.
  intros a.
  apply (fresh_addresses_never_limited
           [a "1"; a "2"; a "3"; a "4"; a "5"; a "6"; a "7"]%string []
           (mkClient Scenario.fresh [])).
  - simpl. repeat constructor; simpl; intuition discriminate.
  - reflexivity.
Defined.

End Endpoint.
(** ** The flag route under failing requests *)

Section Handling.

Import Handling.

Lemma team_of_not_guest (user : string) (profile : Profile) :
  team_of user profile <> "guest"%string.
Proof.
  unfold team_of.
  destruct (String.eqb_spec
              match profile_team_name profile with
              | Some t => t
              | None => ("guest_" ++ user)%string
              end "guest") as [_ | Hne]; [| exact Hne].
  simpl. discriminate.
Qed.

(** Whatever becomes of its four requests, the tail of the route leaves
    the stored solves alone or appends the one row it announces. *)
Lemma award_any (user : string) (profile : Profile) (challengeId : string)
    (c : Client) :
  exists out c',
    award user profile challengeId c = (out, c')
    /\ untouched (database c) (database c')
    /\ (solves (database c') = solves (database c)
        \/ exists points awarded,
             out = Returned (Correct points awarded (message awarded))
             /\ solves (database c')
                = solves (database c)
                  ++ [mkSolve user (team_of user profile) challengeId points
                        (clock (database c))]).
Proof.
  destruct c as [d fs].
  unfold award, bind, challenge_by_id, upsert_profile, existing_team_solve,
    insert_solve, select, mutate, next_fault, ret, team_of, message, untouched.
  cbn [database faults].
  repeat (match goal with
          | |- context [match hd Answers ?l with _ => _ end] =>
              destruct (hd Answers l)
          | |- context [if String.eqb ?a ?b then _ else _] =>
              destruct (String.eqb a b)
          | |- context [if existsb ?f ?l then _ else _] =>
              destruct (existsb f l)
          end; cbn [database faults fst snd with_profiles with_solves solves
                    solves_unique clock challenges teams competition_settings
                    challenge_flags]);
    eexists _, _; (split; [reflexivity |]);
    cbn [database faults fst snd with_profiles with_solves solves
         solves_unique clock challenges teams competition_settings
         challenge_flags];
    (split; [repeat split |]);
    first [left; reflexivity | right; eexists _, _; split; reflexivity].
Qed.

Lemma untouched_refl (d : Database) : untouched d d.
Proof.
  repeat split.
Qed.

(** X9.  Whatever the request and whatever becomes of its database
    requests, the route answers (it never throws), never writes the
    tables of challenges, teams, settings and flags, and never alters or
    removes a stored solve: either the solves are as before, or the
    answer is "correct" and one row was appended, for the signed-in user
    and the submitted challenge id, carrying the announced points, under
    a team name that is never the shared name "guest". *)
Theorem POST_keeps_solves (req : Request) (c : Client) :
  exists response c',
    POST req c = (Returned response, c')
    /\ untouched (database c) (database c')
    /\ (solves (database c') = solves (database c)
        \/ exists user team points awarded,
             session req = User user
             /\ team <> "guest"%string
             /\ response = Correct points awarded (message awarded)
             /\ solves (database c')
                = solves (database c)
                  ++ [mkSolve user team (body_id req) points (clock (database c))]).
Proof.
  assert (Hplain : forall response : Response,
             exists response' c',
               (Returned response, c) = (Returned response', c')
               /\ untouched (database c) (database c')
               /\ (solves (database c') = solves (database c)
                   \/ exists user team points awarded,
                        session req = User user
                        /\ team <> "guest"%string
                        /\ response' = Correct points awarded (message awarded)
                        /\ solves (database c')
                           = solves (database c)
                             ++ [mkSolve user team (body_id req) points
                                   (clock (database c))])).
  { intros response. exists response, c.
    split; [reflexivity |]. split; [apply untouched_refl | now left]. }
  unfold POST, try_catch. unfold ret.
  destruct (negb (rate_allowed req)); [apply Hplain |].
  destruct (_ || _)%bool; [apply Hplain |].
  destruct (negb (format_ok req)); [apply Hplain |].
  destruct (session req) as [| | user] eqn:Hsession; [apply Hplain | |].
  - unfold bind, select, next_fault.
    destruct (hd Answers (faults c)); eexists _, _;
      (split; [reflexivity |]); (split; [apply untouched_refl | now left]).
  - unfold bind at 1, select at 1, next_fault.
    destruct (hd Answers (faults c));
      try (eexists _, _; (split; [reflexivity |]);
           (split; [apply untouched_refl | now left])).
    unfold bind at 1, profile_of, select at 1, next_fault. cbn [faults database].
    destruct (hd Answers (tl (faults c)));
      try (eexists _, _; (split; [reflexivity |]);
           (split; [apply untouched_refl | now left])).
    destruct (single _) as [profile |];
      [| eexists _, _; (split; [reflexivity |]);
         (split; [apply untouched_refl | now left])].
    destruct (truthy (display_name profile));
      [| eexists _, _; (split; [reflexivity |]);
         (split; [apply untouched_refl | now left])].
    unfold bind at 1, secret_of, select at 1, next_fault. cbn [faults database].
    destruct (hd Answers (tl (tl (faults c))));
      try (eexists _, _; (split; [reflexivity |]);
           (split; [apply untouched_refl | now left])).
    destruct (single _) as [secret |];
      [| eexists _, _; (split; [reflexivity |]);
         (split; [apply untouched_refl | now left])].
    destruct (String.eqb (flag secret) (body_flag req)).
    + destruct (award_any user profile (body_id req)
                  (mkClient (database c) (tl (tl (tl (faults c))))))
        as (out & c' & Haward & Hkept & Hsolves).
      rewrite Haward. cbn [database] in Hkept, Hsolves.
      destruct out as [response |].
      * exists response, c'. split; [reflexivity |]. split; [exact Hkept |].
        destruct Hsolves as [Hsame | (points & awarded & Hout & Hrow)];
          [now left |].
        right. exists user, (team_of user profile), points, awarded.
        injection Hout as ->.
        repeat split; [apply team_of_not_guest | exact Hrow].
      * eexists _, c'. split; [reflexivity |]. split; [exact Hkept |].
        destruct Hsolves as [Hsame | (points & awarded & Hout & _)];
          [now left | discriminate].
    + unfold bind, try_catch, log_failed_attempt, mutate, next_fault, ret.
      cbn [faults database].
      destruct (hd Answers _); eexists _, _;
        (split; [reflexivity |]); (split; [repeat split | now left]).
Qed.

(** An identified request reaches the comparison of the flags when its
    first three requests are answered. *)
Lemma POST_identified (d : Database) (req : Request) (user : string)
    (profile : Profile) (secret : Flag) (fs : list Fault) :
  identified d req user profile secret ->
  POST req (mkClient d (Answers :: Answers :: Answers :: fs))
  = try_catch
      (if String.eqb (flag secret) (body_flag req)
       then award user profile (body_id req)
       else bind (try_catch (log_failed_attempt user (body_id req) (ip req))
                            (ret tt))
              (fun _ => ret (Incorrect "Incorrect flag. Keep trying!")))
      (ret (Text 400 "Invalid request"))
      (mkClient d fs).
Proof.
  intros (Hrate & Hid & Hflag & Hformat & Hsession & Hprofile & Hname & Hsecret).
  unfold POST, try_catch.
  rewrite Hrate, Hid, Hflag, Hformat, Hsession. cbn [negb orb].
  unfold bind at 1, select at 1, next_fault. cbn [faults database hd tl].
  unfold bind at 1, profile_of, select at 1, next_fault. cbn [faults database hd tl].
  rewrite Hprofile, Hname.
  unfold bind at 1, secret_of, select at 1, next_fault. cbn [faults database hd tl].
  rewrite Hsecret. reflexivity.
Qed.

(** X10.  A wrong flag from an identified user is answered "incorrect"
    and leaves one trace at most: when the insert that logs the failed
    attempt is answered, the activity log gains the row naming the user,
    the challenge id, the address and the time; when that insert fails
    or throws, the answer is the same and the database is as before.
    Every other table is unchanged in all three cases. *)
Theorem wrong_flag_only_logged (d : Database) (req : Request) (user : string)
    (profile : Profile) (secret : Flag) (logging : Fault) :
  identified d req user profile secret ->
  String.eqb (flag secret) (body_flag req) = false ->
  POST req (mkClient d [Answers; Answers; Answers; logging])
  = (Returned (Incorrect "Incorrect flag. Keep trying!"),
     mkClient
       (match logging with
        | Answers =>
            with_logs d
              (user_activity_logs d
               ++ [mkActivityLog user "flag_attempt_failed" (body_id req) (ip req)
                     (clock d)])
        | _ => d
        end) []).
Proof.
  intros Hid Hwrong. rewrite (POST_identified d req user profile secret _ Hid).
  rewrite Hwrong. destruct logging; reflexivity.
Qed.

Lemma wrong_flag_only_logged_witness :
  POST (mkRequest "10.0.0.7" true "c1" "editaCTF{y}" true (User "alice"))
    (mkClient Scenario.fresh [Answers; Answers; Answers; Answers])
  = (Returned (Incorrect "Incorrect flag. Keep trying!"),
     mkClient
       (with_logs Scenario.fresh
          [mkActivityLog "alice" "flag_attempt_failed" "c1" "10.0.0.7" 1800000])
       []).
Proof.
  apply (wrong_flag_only_logged Scenario.fresh
           (mkRequest "10.0.0.7" true "c1" "editaCTF{y}" true (User "alice")) "alice"
           (mkProfile "alice" (Some "Alice"%string) (Some "red"%string))
           (mkFlag "c1" "editaCTF{x}") Answers).
  - repeat split.
  - reflexivity.
Defined.

(** The tail of the route when the read of the points fails and the
    other requests are answered. *)
Lemma award_failed_read (user : string) (profile : Profile) (challengeId : string)
    (d : Database) :
  exists d' awarded,
    award user profile challengeId (mkClient d [Fails])
    = (Returned (Correct 0 awarded (message awarded)), mkClient d' [])
    /\ awarded = match team_solves (team_of user profile) challengeId d with
                 | [] => 0
                 | _ :: _ => 0
                 end
    /\ solves d'
       = if existsb (fun r => solves_unique d r
                                (mkSolve user (team_of user profile) challengeId 0
                                   (clock d))) (solves d)
         then solves d
         else solves d ++ [mkSolve user (team_of user profile) challengeId 0 (clock d)].
Proof.
  set (team := team_of user profile).
  assert (Hdone : forall d1 : Database,
             solves d1 = solves d -> solves_unique d1 = solves_unique d ->
             clock d1 = clock d ->
             exists d' awarded,
               (existingTeamSolve <- existing_team_solve team challengeId ;;
                inserted <- insert_solve user team challengeId 0 ;;
                ret (Correct 0
                       match existingTeamSolve with
                       | Some (_ :: _) => 0
                       | _ => 0
                       end
                       (if 0 <? match existingTeamSolve with
                                | Some (_ :: _) => 0
                                | _ => 0
                                end
                        then "Correct! Points awarded to your team."%string
                        else "Correct! You already solved this challenge."%string)))
                 (mkClient d1 [])
               = (Returned (Correct 0 awarded (message awarded)), mkClient d' [])
               /\ awarded = match team_solves team challengeId d with
                            | [] => 0
                            | _ :: _ => 0
                            end
               /\ solves d'
                  = if existsb (fun r => solves_unique d r
                                           (mkSolve user team challengeId 0 (clock d)))
                         (solves d)
                    then solves d
                    else solves d ++ [mkSolve user team challengeId 0 (clock d)]).
  { intros d1 Hs Hu Hc. unfold bind, existing_team_solve, insert_solve.
    rewrite select_now, mutate_now. unfold ret, team_solves. rewrite Hs, Hu, Hc.
    destruct (filter _ (solves d)) as [| r rest]; cbn [firstn];
      destruct (existsb _ (solves d)); eexists _, _;
      (split; [reflexivity |]); (split; [reflexivity |]);
      cbn [solves with_solves database]; congruence. }
  unfold award, bind at 1 2, challenge_by_id.
  assert (Hread : select (fun d0 => find_challenge d0 challengeId) (mkClient d [Fails])
                  = (Returned None, mkClient d [])) by reflexivity.
  rewrite Hread. unfold team, team_of in *.
  destruct (String.eqb _ "guest").
  - unfold upsert_profile. rewrite mutate_now. apply Hdone; reflexivity.
  - unfold ret at 1. apply Hdone; reflexivity.
Qed.

(** X11.  When the read of the challenge's points fails during an
    otherwise successful first correct submission, the route announces 0
    points, awards 0 with the message of a repeated solve, and stores the
    solve with 0 points. *)
Theorem failed_points_read_stores_zero (d : Database) (req : Request)
    (user : string) (profile : Profile) (secret : Flag) :
  identified d req user profile secret ->
  String.eqb (flag secret) (body_flag req) = true ->
  team_solves (team_of user profile) (body_id req) d = [] ->
  let row := mkSolve user (team_of user profile) (body_id req) 0 (clock d) in
  existsb (fun r => solves_unique d r row) (solves d) = false ->
  exists d',
    POST req (mkClient d [Answers; Answers; Answers; Fails])
    = (Returned (Correct 0 0 "Correct! You already solved this challenge."),
       mkClient d' [])
    /\ solves d' = solves d ++ [row].
Proof.
  intros Hid Hright Hnone row Hfree.
  rewrite (POST_identified d req user profile secret _ Hid), Hright.
  destruct (award_failed_read user profile (body_id req) d)
    as (d' & awarded & Haward & Hawarded & Hsolves).
  fold row in Hsolves. rewrite Hfree in Hsolves.
  rewrite Hnone in Hawarded. subst awarded.
  exists d'. unfold try_catch. rewrite Haward. split; [reflexivity | exact Hsolves].
Qed.

Lemma failed_points_read_stores_zero_witness :
  exists d',
    POST (Scenario.submission "alice")
      (mkClient Scenario.fresh [Answers; Answers; Answers; Fails])
    = (Returned (Correct 0 0 "Correct! You already solved this challenge."),
       mkClient d' [])
    /\ solves d' = [mkSolve "alice" "red" "c1" 0 1800000].
Proof.
  apply (failed_points_read_stores_zero Scenario.fresh (Scenario.submission "alice")
           "alice" (mkProfile "alice" (Some "Alice"%string) (Some "red"%string))
           (mkFlag "c1" "editaCTF{x}")); try reflexivity.
  repeat split.
Defined.

Lemma filter_out_then_in {A : Type} (f : A -> bool) (l : list A) :
  filter f (filter (fun a => negb (f a)) l) = [].
Proof.
  induction l as [| a l IH]; simpl; [reflexivity |].
  destruct (f a) eqn:E; simpl; [exact IH | now rewrite E].
Qed.

(** The tail of the route for a user whose profile names the shared team
    "guest", every request answered. *)
Lemma award_guest (user : string) (profile : Profile) (challengeId : string)
    (d : Database) :
  profile_team_name profile = Some "guest"%string ->
  let own := ("guest_" ++ user)%string in
  exists d' awarded,
    award user profile challengeId (mkClient d [])
    = (Returned (Correct (stored_points d challengeId) awarded (message awarded)),
       mkClient d' [])
    /\ profiles d'
       = filter (fun p => negb (String.eqb (profile_user_id p) user)) (profiles d)
         ++ [mkProfile user (display_name profile) (Some own)]
    /\ (solves d' = solves d
        \/ solves d'
           = solves d
             ++ [mkSolve user own challengeId (stored_points d challengeId) (clock d)]).
Proof.
  intros Hguest own.
  unfold award, bind at 1 2, challenge_by_id. rewrite select_now.
  fold (stored_points d challengeId). rewrite Hguest.
  cbn [String.eqb Ascii.eqb Bool.eqb andb]. unfold upsert_profile.
  rewrite mutate_now. cbn [profile_user_id].
  unfold bind, existing_team_solve, insert_solve.
  rewrite select_now, mutate_now. unfold ret.
  cbn [with_profiles solves solves_unique clock].
  fold own.
  destruct (firstn 1 _) as [| r rest];
    destruct (existsb _ (solves d)); eexists _, _;
    (split; [reflexivity |]); (split; [reflexivity |]);
    cbn [solves with_solves with_profiles]; auto.
Qed.

(** X12.  A user whose profile still names the shared team "guest"
    submits a correct flag, every request answered: the profile is
    rewritten to the personal team "guest_" followed by the user id, and
    that is the one profile found for the user afterwards; a solve that
    is stored is stored under the personal team. *)
Theorem guest_gets_own_team (d : Database) (req : Request) (user : string)
    (profile : Profile) (secret : Flag) :
  identified d req user profile secret ->
  String.eqb (flag secret) (body_flag req) = true ->
  profile_team_name profile = Some "guest"%string ->
  let own := ("guest_" ++ user)%string in
  exists d' points awarded,
    POST req (mkClient d [])
    = (Returned (Correct points awarded (message awarded)), mkClient d' [])
    /\ single (filter (fun p => String.eqb (profile_user_id p) user) (profiles d'))
       = Some (mkProfile user (display_name profile) (Some own))
    /\ (solves d' = solves d
        \/ solves d' = solves d ++ [mkSolve user own (body_id req) points (clock d)]).
Proof.
  intros Hid Hright Hguest own.
  destruct (award_guest user profile (body_id req) d Hguest)
    as (d' & awarded & Haward & Hprofiles & Hsolves).
  exists d', (stored_points d (body_id req)), awarded.
  split.
  - apply (POST_accepted d req user profile _ _); [| exact Haward].
    destruct Hid as (Hrate & Hi & Hf & Hformat & Hsession & Hprofile & Hname & Hsecret).
    repeat split; try assumption. exists secret. auto.
  - split; [| exact Hsolves].
    rewrite Hprofiles, filter_app.
    rewrite (filter_out_then_in (fun p => String.eqb (profile_user_id p) user)).
    cbn [filter profile_user_id app]. now rewrite String.eqb_refl.
Qed.

Lemma guest_gets_own_team_witness :
  exists d' points awarded,
    POST (Scenario.submission "dave") (mkClient newcomer [])
    = (Returned (Correct points awarded (message awarded)), mkClient d' [])
    /\ single (filter (fun p => String.eqb (profile_user_id p) "dave") (profiles d'))
       = Some (mkProfile "dave" (Some "Dave"%string) (Some "guest_dave"%string))
    /\ (solves d' = solves newcomer
        \/ solves d'
           = solves newcomer ++ [mkSolve "dave" "guest_dave" "c1" points 1800000]).
Proof.
  apply (guest_gets_own_team newcomer (Scenario.submission "dave") "dave"
           (mkProfile "dave" (Some "Dave"%string) (Some "guest"%string))
           (mkFlag "c1" "editaCTF{x}")); try reflexivity.
  repeat split.
Defined.

End Handling.

(** ** Bounds and orderings of the scoring calculators *)

(** X14.  From two members on, the team-size modifier never grows with
    the team, and from twice the quota on it is 0.7 exactly. *)
Theorem teamSizeModifier_shrinks_then_flat (teamSize teamSize' maxTeamSize : Z) :
  1 <= maxTeamSize -> 2 <= teamSize -> teamSize <= teamSize' ->
  (calculateTeamSizeModifier teamSize' maxTeamSize
   <= calculateTeamSizeModifier teamSize maxTeamSize)%Q
  /\ (2 * maxTeamSize <= teamSize ->
      (calculateTeamSizeModifier teamSize maxTeamSize == 7 # 10)%Q).
Proof.
  intros Hmax Hteam Hle. split; [now apply teamSizeModifier_antitone |].
  intros Hlarge. unfold calculateTeamSizeModifier.
  destruct (Z.leb_spec teamSize 1); [lia |].
  destruct (Z.eqb_spec maxTeamSize 0); [lia |].
  pose proof (ratio_mono (2 * maxTeamSize) teamSize maxTeamSize
                ltac:(lia) Hlarge) as Hr.
  assert (Htwo : (inject_Z (2 * maxTeamSize) / inject_Z maxTeamSize == 2)%Q).
  { rewrite inject_Z_mult. change (inject_Z 2) with 2%Q. field.
    intros E. assert (maxTeamSize = 0) by (apply inject_Z_injective; exact E). lia. }
  unfold max_Q. destruct (Qle_bool _ _) eqn:E; [| reflexivity].
  apply Qle_bool_iff in E. lra.
Qed.

Lemma teamSizeModifier_shrinks_then_flat_witness :
  (calculateTeamSizeModifier 9 4 <= calculateTeamSizeModifier 8 4)%Q
  /\ (2 * 4 <= 8 -> (calculateTeamSizeModifier 8 4 == 7 # 10)%Q).
Proof.
  apply (teamSizeModifier_shrinks_then_flat 8 9 4); lia.
Defined.

Lemma hours_mono (releaseMs solveMs solveMs' : Z) :
  solveMs <= solveMs' ->
  match timeDiffHours (Some releaseMs) (Some solveMs),
        timeDiffHours (Some releaseMs) (Some solveMs') with
  | Fin h, Fin h' => (h <= h')%Q
  | _, _ => False
  end.
Proof.
  intros Hle. unfold timeDiffHours.
  apply ratio_mono; [reflexivity | lia].
Qed.

Ltac split_le :=
  repeat match goal with
         | |- context [le ?a ?b] =>
             let E := fresh "E" in
             destruct (le a b) eqn:E; unfold le, of_Z in E;
             [apply Qle_bool_iff in E
             | apply not_true_iff_false in E; rewrite Qle_bool_iff in E]
         end.

(** X15.  For a given release time and difficulty the speed bonus never
    grows as the solve comes later, and it is 0 as soon as one of the two
    dates is invalid. *)
Theorem speedBonus_later_not_larger (releaseMs solveMs solveMs' : Z)
    (difficulty : string) (release solve : DateString) :
  solveMs <= solveMs' ->
  calculateSpeedBonus (Some releaseMs) (Some solveMs') difficulty
  <= calculateSpeedBonus (Some releaseMs) (Some solveMs) difficulty
  /\ calculateSpeedBonus None solve difficulty = 0
  /\ calculateSpeedBonus release None difficulty = 0.
Proof.
  intros Hle. split.
  - pose proof (hours_mono releaseMs solveMs solveMs' Hle) as Hh.
    unfold calculateSpeedBonus.
    destruct (timeDiffHours (Some releaseMs) (Some solveMs)) as [| h];
      [contradiction |].
    destruct (timeDiffHours (Some releaseMs) (Some solveMs')) as [| h'];
      [contradiction |].
    destruct (get speedThresholds difficulty) as [t | |]; try lia;
      split_le; try lia; exfalso; lra.
  - unfold calculateSpeedBonus.
    split; [| destruct release];
      destruct (get speedThresholds difficulty); reflexivity.
Qed.

Lemma speedBonus_later_not_larger_witness :
  calculateSpeedBonus (Some 0) (Some 7200000) "hard"
  <= calculateSpeedBonus (Some 0) (Some 3600000) "hard"
  /\ calculateSpeedBonus None (Some 3600000) "hard" = 0
  /\ calculateSpeedBonus (Some 0) None "hard" = 0.
Proof.
  apply (speedBonus_later_not_larger 0 3600000 7200000 "hard" (Some 0) (Some 3600000)).
  lia.
Defined.

(** X16.  For the same two dates a harder difficulty never earns a
    smaller speed bonus (easy, medium, hard, expert in this order), and
    a difficulty that is neither one of the four nor inherited earns what
    medium earns. *)
Theorem speedBonus_by_difficulty (release solve : DateString) (difficulty : string) :
  calculateSpeedBonus release solve "easy"
  <= calculateSpeedBonus release solve "medium"
  /\ calculateSpeedBonus release solve "medium"
     <= calculateSpeedBonus release solve "hard"
  /\ calculateSpeedBonus release solve "hard"
     <= calculateSpeedBonus release solve "expert"
  /\ (get speedThresholds difficulty = Undefined ->
      calculateSpeedBonus release solve difficulty
      = calculateSpeedBonus release solve "medium").
Proof.
  unfold calculateSpeedBonus.
  change (get speedThresholds "easy") with (Own (mkThresholds 1 6 24)).
  change (get speedThresholds "medium") with (Own (mkThresholds 2 12 48)).
  change (get speedThresholds "hard") with (Own (mkThresholds 4 24 72)).
  change (get speedThresholds "expert") with (Own (mkThresholds 8 48 120)).
  cbn [fast medium].
  repeat split.
  4: { intros ->. reflexivity. }
  all: destruct (timeDiffHours release solve) as [| h];
    [cbn; lia | split_le; try lia; exfalso; unfold inject_Z in *; lra].
Qed.

Lemma speedBonus_by_difficulty_witness :
  calculateSpeedBonus (Some 0) (Some 3600000) "insane"
  = calculateSpeedBonus (Some 0) (Some 3600000) "medium".
Proof.
  apply (speedBonus_by_difficulty (Some 0) (Some 3600000) "insane").
  reflexivity.
Defined.

(** ** The first-blood bonus and the breakdown under failing reads *)

Lemma or_Z_nonzero (x : option Z) (dflt : Z) : dflt <> 0 -> or_Z x dflt <> 0.
Proof.
  intros Hd. unfold or_Z. destruct x as [v |]; [| exact Hd].
  destruct (Z.eqb_spec v 0); assumption.
Qed.

(** X17.  When the read of the solves fails, the computation is first
    blood whatever solves are stored, with a bonus that is never 0 (50 if
    the settings cannot be read either); when that read throws, the
    computation is not first blood and offers nothing. *)
Theorem failed_solves_read_is_first_blood (d : Database) (fs : list Fault)
    (challengeId teamId : string) :
  (fate 0 fs = Fails -> fate 1 fs <> Throws ->
   exists bonus,
     fst (calculateFirstBloodBonus challengeId teamId (mkClient d fs))
     = Returned (mkFirstBlood bonus true)
     /\ bonus <> 0
     /\ (fate 1 fs = Fails -> bonus = 50))
  /\ (fate 0 fs = Throws ->
      fst (calculateFirstBloodBonus challengeId teamId (mkClient d fs))
      = Returned (mkFirstBlood 0 false)).
Proof.
  unfold calculateFirstBloodBonus, try_catch, bind, first_solve, latest_settings,
    select, next_fault, ret.
  cbn [database faults]. rewrite ?fate_hd, ?fate_tl.
  split.
  - intros H0 H1. rewrite H0. cbn [database faults]. rewrite ?fate_hd, ?fate_tl.
    destruct (fate 1 fs); [| | congruence]; eexists;
      (split; [reflexivity |]); (split; [| intros; try reflexivity; discriminate]).
    + apply or_Z_nonzero. discriminate.
    + discriminate.
  - intros H0. now rewrite H0.
Qed.

Lemma failed_solves_read_is_first_blood_witness :
  exists bonus,
    fst (calculateFirstBloodBonus "c1" "blue"
           (mkClient Scenario.solved_by_red [Fails]))
    = Returned (mkFirstBlood bonus true)
    /\ bonus <> 0.
Proof.
  destruct (failed_solves_read_is_first_blood Scenario.solved_by_red [Fails]
              "c1" "blue") as [Hfails _].
  destruct (Hfails eq_refl ltac:(discriminate)) as (bonus & Hrun & Hnz & _).
  exists bonus. split; assumption.
Defined.

Lemma firstBlood_bonus_iff (challengeId teamId : string) (c : Client) :
  exists fb c',
    calculateFirstBloodBonus challengeId teamId c = (Returned fb, c')
    /\ (fb_isFirstBlood fb = false <-> fb_points fb = 0).
Proof.
  destruct c as [d fs].
  assert (H50 : forall x, or_Z x 50 <> 0) by (intros; apply or_Z_nonzero; discriminate).
  unfold calculateFirstBloodBonus, try_catch, bind, first_solve, latest_settings,
    select, next_fault, ret. simpl.
  destruct (hd Answers fs); simpl;
    [destruct (earliest_solve d challengeId); simpl | |];
    try destruct (hd Answers (tl fs)); simpl;
    eexists _, _; (split; [reflexivity |]); cbn [fb_isFirstBlood fb_points];
    split; intros H; try reflexivity; try discriminate;
    exfalso; exact (H50 _ H).
Qed.

Lemma of_Z_injective (a b : Z) : of_Z a = of_Z b -> a = b.
Proof.
  unfold of_Z, inject_Z. intros H. now injection H.
Qed.

(** X18.  In every breakdown, whatever the reads did, the first-blood
    bonus is 0 exactly when the breakdown is not first blood: a first
    blood always comes with a bonus other than 0. *)
Theorem bonus_zero_iff_not_first_blood
    (challengeId teamId : string) (teamSize : Z) (solveTime : DateString)
    (c : Client) :
  exists r,
    fst (calculateTotalScore challengeId teamId teamSize solveTime c) = Returned r
    /\ (isFirstBlood r = false <-> firstBloodBonus r = of_Z 0).
Proof.
  unfold calculateTotalScore. apply try_catch_ind.
  - intros r c' Hbody. unfold bind in Hbody.
    destruct (challenge_by_id challengeId c) as [[challenge |] c1]; [| discriminate].
    destruct (calculateDynamicPoints challengeId c1) as [[dyn |] c2]; [| discriminate].
    destruct (firstBlood_bonus_iff challengeId teamId c2) as (fb & c3 & Hfb & Hiff).
    rewrite Hfb in Hbody. unfold ret in Hbody. injection Hbody as <- _.
    cbn [isFirstBlood firstBloodBonus]. rewrite Hiff. split.
    + now intros ->.
    + apply of_Z_injective.
  - cbn [isFirstBlood firstBloodBonus]. tauto.
Qed.

(** X19.  The engine only reads: whatever the reads do, a scoring
    computation hands the database back exactly as it found it. *)
Theorem calculateTotalScore_reads_only
    (challengeId teamId : string) (teamSize : Z) (solveTime : DateString)
    (c : Client) :
  database (snd (calculateTotalScore challengeId teamId teamSize solveTime c))
  = database c.
Proof.
  unfold calculateTotalScore. apply try_catch_database. intros c0.
  unfold challenge_by_id.
  apply bind_database; [intros; apply select_database |]. intros challenge c1.
  apply bind_database; [intros; apply calculateDynamicPoints_database |].
  intros dyn c2.
  apply bind_database; [intros; apply calculateFirstBloodBonus_database |].
  reflexivity.
Qed.

(** ** Names inherited from [Object.prototype] and the range of the points *)

Lemma inherited_is_not_own {A : Type} (table : list (string * A)) (k : string) :
  Bounds.no_inherited_key table = true -> inherited k = true ->
  get table k = Inherited.
Proof.
  unfold Bounds.no_inherited_key, get. intros Hnone Hinh.
  rewrite Hinh. unfold inherited in Hinh.
  apply existsb_exists in Hinh as (k' & Hin & Heq).
  apply String.eqb_eq in Heq. subst k'.
  rewrite forallb_forall in Hnone. specialize (Hnone k Hin).
  destruct (own table k); [discriminate | reflexivity].
Qed.

Lemma dynamicPointsOf_NaN (ch : Challenge) (totalTeams : Z) (solveCount : option Z) :
  totalTeams <> 0 ->
  inherited (key_of (difficulty ch)) = true
  \/ inherited (key_of (category ch)) = true ->
  dynamicPointsOf ch (Some totalTeams) solveCount = NaN.
Proof.
  intros HT Hinh. unfold dynamicPointsOf.
  destruct totalTeams; [congruence | |];
    (destruct Hinh as [Hd | Hc];
     [rewrite (inherited_is_not_own difficultyMultiplier _ eq_refl Hd)
     | rewrite (inherited_is_not_own categoryMultiplier _ eq_refl Hc)];
     cbn [factor_or mul lift2 round max of_Z];
     try reflexivity;
     destruct (factor_or _ 1); reflexivity).
Qed.

(** X20.  A challenge whose difficulty or category is the name of a
    member of [Object.prototype] (such as "constructor" or "toString")
    has no numeric score: with the reads answered and at least one
    eligible team, the dynamic points and the total are [NaN]. *)
Theorem inherited_name_scores_NaN
    (d : Database) (fs : list Fault) (challengeId teamId : string)
    (teamSize : Z) (solveTime : DateString) (ch : Challenge) :
  find_challenge d challengeId = Some ch ->
  0 < eligible_teams d ->
  fate 0 fs = Answers -> fate 1 fs = Answers ->
  fate 2 fs = Answers -> fate 3 fs = Answers ->
  inherited (key_of (difficulty ch)) = true
  \/ inherited (key_of (category ch)) = true ->
  exists r,
    fst (calculateTotalScore challengeId teamId teamSize solveTime (mkClient d fs))
    = Returned r
    /\ dynamicPoints r = NaN
    /\ totalPoints r = NaN.
Proof.
  intros Hfind HT H0 H1 H2 H3 Hinh.
  unfold calculateTotalScore, try_catch, bind, challenge_by_id.
  rewrite select_answered by now rewrite fate_hd.
  rewrite Hfind.
  pose proof (dynamicPoints_answered d (tl fs) challengeId ch Hfind) as Hrun.
  rewrite !fate_tl in Hrun. specialize (Hrun H1 H2 H3).
  rewrite dynamicPointsOf_NaN in Hrun by (assumption || lia).
  destruct (calculateDynamicPoints challengeId (mkClient d (tl fs))) as [dyn c2].
  cbn [fst] in Hrun. subst dyn.
  destruct (calculateFirstBloodBonus_returns challengeId teamId c2)
    as (fb & c3 & Hfb).
  rewrite Hfb. unfold ret. eexists. split; [reflexivity |].
  split; reflexivity.
Qed.

Lemma inherited_name_scores_NaN_witness :
  let d := mkDatabase
             [mkChallenge "c9" (Some 100) (Some "easy"%string)
                (Some "constructor"%string) (Some false) (Some 0)]
             [mkTeam "red"] [] [] [] [] Scenario.by_team_and_challenge 1800000 [] in
  exists r,
    fst (calculateTotalScore "c9" "red" 1 (Some 1800000) (mkClient d [])) = Returned r
    /\ dynamicPoints r = NaN
    /\ totalPoints r = NaN.
Proof.
  intros d.
  apply (inherited_name_scores_NaN d [] "c9" "red" 1 (Some 1800000)
           (mkChallenge "c9" (Some 100) (Some "easy"%string)
              (Some "constructor"%string) (Some false) (Some 0)));
    try reflexivity.
  right. reflexivity.
Defined.


(** ** The permission check of the admin routes *)

Section Permission.

Import AdminRoute.
Local Open Scope string_scope.

Lemma substring_all (s : string) : String.substring 0 (String.length s) s = s.
Proof.
  induction s as [| c s IH]; simpl; [reflexivity | now rewrite IH].
Qed.

Lemma bearer_token_of (token : string) :
  bearer_token (Some ("Bearer " ++ token)) = Some token.
Proof.
  unfold bearer_token. cbn.
  replace (String.prefix "" token) with true by (destruct token; reflexivity).
  rewrite Nat.sub_0_r. now rewrite substring_all.
Qed.

Lemma prefix_split (p h : string) :
  String.prefix p h = true -> exists t, h = p ++ t.
Proof.
  revert h. induction p as [| a p IH]; intros h H.
  - now exists h.
  - destruct h as [| b h]; [discriminate |]. simpl in H.
    destruct (Ascii.ascii_dec a b) as [-> |]; [| discriminate].
    destruct (IH h H) as [t ->]. now exists t.
Qed.

Lemma bearer_token_inv (authorization : option string) (token : string) :
  bearer_token authorization = Some token ->
  token <> "" -> authorization = Some ("Bearer " ++ token).
Proof.
  unfold bearer_token. intros H Hne.
  destruct (String.prefix "Bearer " match authorization with Some h => h | None => "" end)
    eqn:Hp; [| discriminate].
  destruct authorization as [h |]; [| discriminate].
  destruct (prefix_split _ _ Hp) as [t ->].
  pose proof (bearer_token_of t) as Ht. unfold bearer_token in Ht.
  rewrite Hp, H in Ht. now injection Ht as ->.
Qed.

Lemma includes_In (xs : list string) (x : string) :
  includes xs x = true <-> In x xs.
Proof.
  unfold includes. rewrite existsb_exists. split.
  - intros (y & Hin & Heq). apply String.eqb_eq in Heq. now subst.
  - intros Hin. exists x. split; [exact Hin | apply String.eqb_refl].
Qed.

Lemma split_comma_cons (s : string) :
  exists piece pieces, split_comma s = piece :: pieces.
Proof.
  destruct s as [| c s]; [now eexists _, _ |]. cbn [split_comma].
  destruct (String.eqb (String c EmptyString) ","); [now eexists _, _ |].
  destruct (split_comma s); now eexists _, _.
Qed.

(** Splitting at the commas and joining with commas gives the string
    back. *)
Lemma join_split (s : string) : join_comma (split_comma s) = s.
Proof.
  induction s as [| c s IH]; [reflexivity |]. cbn [split_comma].
  destruct (split_comma_cons s) as (piece & pieces & Hs). rewrite Hs in *.
  destruct (String.eqb (String c EmptyString) ",") eqn:E.
  - apply String.eqb_eq in E. injection E as ->.
    cbn [join_comma] in *. now rewrite IH.
  - destruct pieces; cbn [join_comma] in *; subst; reflexivity.
Qed.

Lemma trailing_comma_piece (a : string) :
  In "" (tl (split_comma (a ++ ","))).
Proof.
  induction a as [| c a IH]; [now left |].
  change (String c a ++ ",") with (String c (a ++ ",")). cbn [split_comma].
  destruct (String.eqb (String c EmptyString) ",").
  - cbn [tl]. destruct (split_comma (a ++ ",")); [destruct IH | now right].
  - destruct (split_comma (a ++ ",")); [destruct IH | exact IH].
Qed.

Lemma empty_piece (s : string) :
  s = "" \/ (exists a, s = a ++ ",") -> In "" (split_comma s).
Proof.
  intros [-> | [a ->]]; [now left |].
  pose proof (trailing_comma_piece a) as H.
  destruct (split_comma (a ++ ",")); [destruct H | now right].
Qed.

(** The check of a request with a non-empty bearer token, by the fates
    of its two reads. *)
Lemma check_run (dir : Directory) (token : string) (requiredRole : list string)
    (d : Database) (fs : list Fault) :
  token <> "" ->
  fst (checkAdminPermission dir (Some ("Bearer " ++ token)) requiredRole (mkClient d fs))
  = Returned
      (match fate 0 fs with
       | Throws => Denied "Internal server error" 500
       | Fails => Denied "Unauthorized" 401
       | Answers =>
           match own (sessions dir) token with
           | None => Denied "Unauthorized" 401
           | Some user =>
               match fate 1 fs with
               | Throws => Denied "Internal server error" 500
               | Fails => decision dir requiredRole user None
               | Answers =>
                   decision dir requiredRole user (single (active_roles dir user))
               end
           end
       end).
Proof.
  intros Hne. unfold checkAdminPermission. rewrite bearer_token_of.
  destruct token as [| ch token]; [congruence |].
  unfold try_catch, bind, getUser, role_of.
  destruct (fate 0 fs) eqn:H0; rewrite <- fate_hd in H0.
  - rewrite (select_answered (fun _ => own (sessions dir) (String ch token)))
      by exact H0.
    destruct (own (sessions dir) (String ch token)) as [user |]; [| reflexivity].
    destruct (fate 1 fs) eqn:H1; rewrite <- fate_tl, <- fate_hd in H1.
    + now rewrite (select_answered (fun _ => single (active_roles dir user)))
        by exact H1.
    + now rewrite (select_failed (fun _ => single (active_roles dir user)))
        by exact H1.
    + now rewrite (select_thrown (fun _ => single (active_roles dir user)))
        by exact H1.
  - now rewrite (select_failed (fun _ => own (sessions dir) (String ch token)))
      by exact H0.
  - now rewrite (select_thrown (fun _ => own (sessions dir) (String ch token)))
      by exact H0.
Qed.

Lemma no_single_row (dir : Directory) (user : AuthUser) :
  List.length (active_roles dir user) <> 1%nat ->
  single (active_roles dir user) = None.
Proof.
  destruct (active_roles dir user) as [| r [| r' rows]]; simpl; congruence.
Qed.

(** X22.  For a user with exactly one active role row, that row alone
    decides: the request is granted with the row's role when the role
    is among the required ones and refused with status 403 otherwise,
    whatever [ADMIN_EMAILS] lists. *)
Theorem single_role_row_decides (dir : Directory) (token : string)
    (user : AuthUser) (r : UserRole) (requiredRole : list string)
    (d : Database) (fs : list Fault) :
  token <> "" ->
  own (sessions dir) token = Some user ->
  active_roles dir user = [r] ->
  role r <> "" ->
  fate 0 fs = Answers -> fate 1 fs = Answers ->
  fst (checkAdminPermission dir (Some ("Bearer " ++ token)) requiredRole (mkClient d fs))
  = Returned (if includes requiredRole (role r)
              then Granted user (role r)
              else Denied "Insufficient permissions" 403).
Proof.
  intros Hne Hsession Hrows Hrole H0 H1.
  rewrite (check_run dir token requiredRole d fs Hne), H0, Hsession, H1, Hrows.
  unfold decision. cbn [single].
  destruct (includes requiredRole (role r)); [| reflexivity].
  destruct (role r); [congruence | reflexivity].
Qed.

Lemma single_role_row_decides_witness :
  let dir := mkDirectory (Some "ann@ctf.org")
               [("t0k3n", mkAuthUser "u1" (Some "ann@ctf.org"))]
               [mkUserRole "u1" "user" true; mkUserRole "u2" "admin" true] in
  fst (checkAdminPermission dir (Some "Bearer t0k3n") admins (mkClient Scenario.fresh []))
  = Returned (Denied "Insufficient permissions" 403).
Proof.
  intros dir.
  apply (single_role_row_decides dir "t0k3n" (mkAuthUser "u1" (Some "ann@ctf.org"))
           (mkUserRole "u1" "user" true) admins Scenario.fresh []);
    try reflexivity; discriminate.
Defined.

(** X23.  When the role read fails, or finds no active row or more than
    one, the list [ADMIN_EMAILS] alone decides, whatever roles are
    required: a listed address is granted the role admin, any other
    user is refused with status 403. *)
Theorem without_single_role_row_email_decides (dir : Directory) (token : string)
    (user : AuthUser) (requiredRole : list string)
    (d : Database) (fs : list Fault) :
  token <> "" ->
  own (sessions dir) token = Some user ->
  fate 0 fs = Answers ->
  fate 1 fs = Fails
  \/ (fate 1 fs = Answers /\ List.length (active_roles dir user) <> 1%nat) ->
  fst (checkAdminPermission dir (Some ("Bearer " ++ token)) requiredRole (mkClient d fs))
  = Returned (if includes (admin_emails dir) (or_string (email user) "")
              then Granted user "admin"
              else Denied "Insufficient permissions" 403).
Proof.
  intros Hne Hsession H0 H1.
  rewrite (check_run dir token requiredRole d fs Hne), H0, Hsession.
  assert (Hnone :
    match fate 1 fs with
    | Answers => decision dir requiredRole user (single (active_roles dir user))
    | Fails => decision dir requiredRole user None
    | Throws => Denied "Internal server error" 500
    end = decision dir requiredRole user None).
  { destruct H1 as [-> | [-> Hrows]]; [reflexivity |].
    now rewrite (no_single_row _ _ Hrows). }
  rewrite Hnone. unfold decision.
  destruct (includes (admin_emails dir) (or_string (email user) ""));
    reflexivity.
Qed.

Lemma without_single_role_row_email_decides_witness :
  let dir := mkDirectory (Some "ann@ctf.org,bob@ctf.org")
               [("t0k3n", mkAuthUser "u1" (Some "eve@ctf.org"))]
               [mkUserRole "u1" "admin" true; mkUserRole "u1" "super_admin" true] in
  fst (checkAdminPermission dir (Some "Bearer t0k3n") super_admins
         (mkClient Scenario.fresh []))
  = Returned (Denied "Insufficient permissions" 403).
Proof.
  intros dir.
  apply (without_single_role_row_email_decides dir "t0k3n"
           (mkAuthUser "u1" (Some "eve@ctf.org")) super_admins Scenario.fresh []);
    try reflexivity; [discriminate |].
  right. split; [reflexivity | discriminate].
Defined.

(** X24.  When [ADMIN_EMAILS] is set to the empty string or ends in a
    comma, a signed-in user without an address and without a single
    active role row is granted the role admin, whatever roles are
    required. *)
Theorem empty_entry_admits_users_without_email (dir : Directory)
    (listed token : string) (user : AuthUser) (requiredRole : list string)
    (d : Database) (fs : list Fault) :
  ADMIN_EMAILS dir = Some listed ->
  listed = "" \/ (exists a, listed = a ++ ",") ->
  email user = None \/ email user = Some "" ->
  token <> "" ->
  own (sessions dir) token = Some user ->
  fate 0 fs = Answers ->
  fate 1 fs = Fails
  \/ (fate 1 fs = Answers /\ List.length (active_roles dir user) <> 1%nat) ->
  fst (checkAdminPermission dir (Some ("Bearer " ++ token)) requiredRole (mkClient d fs))
  = Returned (Granted user "admin").
Proof.
  intros Hlisted Hshape Hemail Hne Hsession H0 H1.
  rewrite (check_run dir token requiredRole d fs Hne), H0, Hsession.
  assert (Hnone :
    match fate 1 fs with
    | Answers => decision dir requiredRole user (single (active_roles dir user))
    | Fails => decision dir requiredRole user None
    | Throws => Denied "Internal server error" 500
    end = decision dir requiredRole user None).
  { destruct H1 as [-> | [-> Hrows]]; [reflexivity |].
    now rewrite (no_single_row _ _ Hrows). }
  rewrite Hnone. unfold decision.
  assert (Hin : includes (admin_emails dir) (or_string (email user) "") = true).
  { apply includes_In. unfold admin_emails. rewrite Hlisted.
    replace (or_string (email user) "") with ""
      by (destruct Hemail as [-> | ->]; reflexivity).
    now apply empty_piece. }
  now rewrite Hin.
Qed.

Lemma empty_entry_admits_users_without_email_witness :
  let dir := mkDirectory (Some "ann@ctf.org,")
               [("t0k3n", mkAuthUser "u7" None)] [] in
  fst (checkAdminPermission dir (Some "Bearer t0k3n") super_admins
         (mkClient Scenario.fresh []))
  = Returned (Granted (mkAuthUser "u7" None) "admin").
Proof.
  intros dir.
  apply (empty_entry_admits_users_without_email dir "ann@ctf.org," "t0k3n"
           (mkAuthUser "u7" None) super_admins Scenario.fresh []);
    try reflexivity.
  - right. now exists "ann@ctf.org".
  - now left.
  - discriminate.
  - right. split; [reflexivity | discriminate].
Defined.

(** X25.  Permission is granted only to the user of the session named
    by a non-empty bearer token, after the auth service answered, and
    only when that user's single active role row carries a required
    role or [ADMIN_EMAILS] lists the user's address. *)
Theorem grant_needs_session_and_ground (dir : Directory)
    (authorization : option string) (requiredRole : list string) (c : Client)
    (user : AuthUser) (granted : string) :
  fst (checkAdminPermission dir authorization requiredRole c)
  = Returned (Granted user granted) ->
  exists token,
    authorization = Some ("Bearer " ++ token)
    /\ token <> ""
    /\ own (sessions dir) token = Some user
    /\ fate 0 (faults c) = Answers
    /\ ((exists r, active_roles dir user = [r]
                   /\ includes requiredRole (role r) = true)
        \/ includes (admin_emails dir) (or_string (email user) "") = true).
Proof.
  intros H.
  assert (Htoken : exists token,
            bearer_token authorization = Some token /\ token <> "").
  { unfold checkAdminPermission in H.
    destruct (bearer_token authorization) as [[| ch token] |];
      try discriminate.
    eexists. split; [reflexivity | discriminate]. }
  destruct Htoken as (token & Htoken & Hne). exists token.
  apply bearer_token_inv in Htoken; [| exact Hne]. subst authorization.
  destruct c as [d fs]. rewrite (check_run dir token requiredRole d fs Hne) in H.
  cbn [faults]. split; [reflexivity |]. split; [exact Hne |].
  destruct (fate 0 fs); try discriminate.
  destruct (own (sessions dir) token) as [u |]; [| discriminate].
  assert (Hdecided : forall userRole,
            decision dir requiredRole u userRole = Granted user granted ->
            u = user
            /\ match userRole with
               | Some r => includes requiredRole (role r)
               | None => includes (admin_emails dir) (or_string (email u) "")
               end = true).
  { unfold decision. intros userRole Hd.
    destruct (match userRole with
              | Some r => includes requiredRole (role r)
              | None => includes (admin_emails dir) (or_string (email u) "")
              end); cbn [negb] in Hd; [| discriminate].
    split; [congruence | reflexivity]. }
  destruct (fate 1 fs); try discriminate;
    injection H as H; apply Hdecided in H as [-> Hground];
    (split; [reflexivity |]); (split; [reflexivity |]);
    [| right; exact Hground].
  destruct (active_roles dir user) as [| r [| r' rows]]; cbn [single] in Hground;
    [right; exact Hground | | right; exact Hground].
  left. exists r. split; [reflexivity | exact Hground].
Qed.

Lemma grant_needs_session_and_ground_witness :
  let dir := mkDirectory None
               [("t0k3n", mkAuthUser "u1" (Some "ann@ctf.org"))]
               [mkUserRole "u1" "admin" true] in
  exists token,
    Some "Bearer t0k3n" = Some ("Bearer " ++ token)
    /\ token <> ""
    /\ own (sessions dir) token = Some (mkAuthUser "u1" (Some "ann@ctf.org"))
    /\ fate 0 (faults (mkClient Scenario.fresh [])) = Answers
    /\ ((exists r, active_roles dir (mkAuthUser "u1" (Some "ann@ctf.org")) = [r]
                   /\ includes admins (role r) = true)
        \/ includes (admin_emails dir)
             (or_string (email (mkAuthUser "u1" (Some "ann@ctf.org"))) "") = true).
Proof.
  intros dir.
  apply (grant_needs_session_and_ground dir (Some "Bearer t0k3n") admins
           (mkClient Scenario.fresh []) (mkAuthUser "u1" (Some "ann@ctf.org"))
           "admin").
  reflexivity.
Defined.

End Permission.

(** ** The request middleware *)

Section Composer.

Import RateLimiter Limits Middleware.
Local Open Scope string_scope.

Variables (address endpointType : string) (window quota : Z).
Hypothesis window_configured : windowMs (config_of endpointType) = Some window.
Hypothesis quota_configured : maxRequests (config_of endpointType) = Some quota.
Hypothesis quota_positive : 1 <= quota.

Lemma ordinary_inv (req : Request) :
  ordinary address endpointType req = true ->
  ip req = address
  /\ rateLimitType (pathname req) = endpointType
  /\ String.eqb (method req) "OPTIONS" && String.prefix "/api/" (pathname req) = false
  /\ authMiddleware req = None.
Proof.
  unfold ordinary. intros H.
  apply andb_prop in H as [H Hauth]. apply andb_prop in H as [H Hpre].
  apply andb_prop in H as [Hip Htype].
  apply String.eqb_eq in Hip, Htype. apply negb_true_iff in Hpre.
  repeat split; try assumption.
  destruct (authMiddleware req); [discriminate | reflexivity].
Qed.

Lemma middleware_step (opened : Z) (j : nat) (a : Arrival) (store : Store) :
  counted address endpointType window quota opened j store ->
  ordinary address endpointType (request a) = true ->
  first_read a <= opened + window -> second_read a <= opened + window ->
  passed (fst (middleware (request a) (first_read a) (second_read a) store))
  = (2 * Z.of_nat j <? quota)%Z
  /\ counted address endpointType window quota opened (S j)
       (snd (middleware (request a) (first_read a) (second_read a) store)).
Proof.
  intros (i & Hin & Hi) Hord H1 H2.
  destruct (ordinary_inv _ Hord) as (Hip & Htype & Hpre & Hauth).
  unfold middleware, rateLimitMiddleware. rewrite Hpre, Hip, Htype, Hauth.
  destruct (in_window_step address endpointType window quota quota_configured
              opened i (first_read a) store Hin H1) as [Hverdict Hnext].
  destruct (checkRateLimit address endpointType (first_read a) store)
    as [r1 store1].
  cbn [fst snd] in Hverdict, Hnext. rewrite Hverdict.
  destruct (Z.ltb_spec i quota) as [Hroom | Hfull]; cbn [negb].
  - destruct (in_window_step address endpointType window quota quota_configured
                opened (i + 1) (second_read a) store1 Hnext H2) as [_ Hnext2].
    destruct (checkRateLimit address endpointType (second_read a) store1)
      as [r2 store2].
    cbn [fst snd passed] in *. split.
    + symmetry. apply Z.ltb_lt. lia.
    + exists (i + 1 + 1). split; [exact Hnext2 | lia].
  - cbn [fst snd passed]. split.
    + symmetry. apply Z.ltb_ge. lia.
    + exists (i + 1). split; [exact Hnext | lia].
Qed.

Lemma serve_counted (opened : Z) (later : list Arrival) :
  Forall (fun a => ordinary address endpointType (request a) = true
                   /\ first_read a <= opened + window
                   /\ second_read a <= opened + window) later ->
  forall (j : nat) (store : Store),
    counted address endpointType window quota opened j store ->
    map passed (fst (serve later store))
    = map (fun k => (2 * Z.of_nat k <? quota)%Z) (seq j (List.length later)).
Proof.
  induction 1 as [| a later (Hord & H1 & H2) _ IH]; intros j store Hc;
    [reflexivity |].
  cbn [serve].
  destruct (middleware_step opened j a store Hc Hord H1 H2) as [Hverdict Hnext].
  destruct (middleware (request a) (first_read a) (second_read a) store)
    as [response store1].
  cbn [fst snd] in Hverdict, Hnext. specialize (IH (S j) store1 Hnext).
  destruct (serve later store1) as [responses store2].
  cbn [fst] in *. simpl. now rewrite Hverdict, IH.
Qed.

Lemma first_counted (a : Arrival) (store : Store) :
  idle address endpointType (first_read a) store = true ->
  ordinary address endpointType (request a) = true ->
  second_read a <= first_read a + window ->
  passed (fst (middleware (request a) (first_read a) (second_read a) store)) = true
  /\ counted address endpointType window quota (first_read a) 1
       (snd (middleware (request a) (first_read a) (second_read a) store)).
Proof.
  intros Hidle Hord H2.
  destruct (ordinary_inv _ Hord) as (Hip & Htype & Hpre & Hauth).
  unfold middleware, rateLimitMiddleware. rewrite Hpre, Hip, Htype, Hauth.
  destruct (idle_opens address endpointType window quota window_configured
              quota_configured quota_positive (first_read a) store Hidle)
    as [Hverdict Hnext].
  destruct (checkRateLimit address endpointType (first_read a) store)
    as [r1 store1].
  cbn [fst snd] in Hverdict, Hnext. rewrite Hverdict. cbn [negb].
  destruct (in_window_step address endpointType window quota quota_configured
              (first_read a) 1 (second_read a) store1 Hnext H2) as [_ Hnext2].
  destruct (checkRateLimit address endpointType (second_read a) store1)
    as [r2 store2].
  cbn [fst snd passed] in *. split; [reflexivity |].
  exists (1 + 1). split; [exact Hnext2 | lia].
Qed.

(** X26.  Every request the middleware passes on is counted twice.  A
    caller without a running window or block sends requests that are
    not preflight requests and carry the credentials their path asks
    for, all read by the clock before the end of the window the first
    one opens: the request number [k] (from 0) is passed on exactly when
    [2 k < maxRequests], so half the configured quota is served. *)
Theorem passed_requests_count_twice (first : Arrival) (later : list Arrival)
    (store : Store) :
  idle address endpointType (first_read first) store = true ->
  Forall (fun a => ordinary address endpointType (request a) = true
                   /\ first_read a <= first_read first + window
                   /\ second_read a <= first_read first + window)
         (first :: later) ->
  map passed (fst (serve (first :: later) store))
  = map (fun k => (2 * Z.of_nat k <? quota)%Z) (seq 0 (S (List.length later))).
Proof.
  intros Hidle Hall. inversion Hall as [| ? ? (Hord & _ & H2) Hlater]; subst.
  cbn [serve].
  destruct (first_counted first store Hidle Hord H2) as [Hverdict Hnext].
  destruct (middleware (request first) (first_read first) (second_read first) store)
    as [response store1].
  cbn [fst snd] in Hverdict, Hnext.
  pose proof (serve_counted (first_read first) later Hlater 1%nat store1 Hnext)
    as Hrest.
  destruct (serve later store1) as [responses store2].
  cbn [fst] in *. simpl. rewrite Hverdict, Hrest. f_equal.
  symmetry. apply Z.ltb_lt. lia.
Qed.

End Composer.

Section ComposerExample.

Import RateLimiter Limits Middleware.
Local Open Scope string_scope.

Lemma passed_requests_count_twice_witness :
  let submit := mkRequest "POST" "/api/flag" (Some "10.0.0.7") None
                  (Some "Bearer t0k3n") false in
  map passed
    (fst (serve
            [mkArrival submit 1000 1001;
             mkArrival submit 2000 2001;
             mkArrival submit 3000 3001;
             mkArrival submit 4000 4001] []))
  = [true; true; true; false].
Proof.
  intros submit.
  apply (passed_requests_count_twice "10.0.0.7" "flag_submission" 60000 5
           eq_refl eq_refl ltac:(lia)
           (mkArrival submit 1000 1001)
           [mkArrival submit 2000 2001;
            mkArrival submit 3000 3001;
            mkArrival submit 4000 4001] []).
  - reflexivity.
  - repeat constructor; simpl; lia.
Defined.

End ComposerExample.
